(** * The external scanner of tree-sitter-talon (src/scanner.cc)

    A shallow embedding of [Scanner]: the delimiter stack and the
    indentation baseline, their binary encoding, and the [scan] routine
    with its three parts (string content, regex content, layout). *)

From Stdlib Require Import ZArith List Bool Lia.
Import ListNotations.
Open Scope Z_scope.

(** ** Characters and fixed-width integers *)

(** Code points are [int32_t] values; the ones the scanner compares with. *)
Abbreviation ch_nul := 0 (only parsing).  (* NUL / end of input *)
Abbreviation ch_tab := 9 (only parsing).  (* tab *)
Abbreviation ch_lf := 10 (only parsing).  (* newline *)
Abbreviation ch_ff := 12 (only parsing).  (* form feed *)
Abbreviation ch_cr := 13 (only parsing).  (* carriage return *)
Abbreviation ch_space := 32 (only parsing).  (* space *)
Abbreviation ch_dquote := 34 (only parsing).  (* double quote *)
Abbreviation ch_hash := 35 (only parsing).  (* hash *)
Abbreviation ch_squote := 39 (only parsing).  (* single quote *)
Abbreviation ch_slash := 47 (only parsing).  (* slash *)
Abbreviation ch_backslash := 92 (only parsing).  (* backslash *)
Abbreviation ch_backquote := 96 (only parsing).  (* backquote *)
Abbreviation ch_lbrace := 123 (only parsing).  (* left brace *)
Abbreviation ch_rbrace := 125 (only parsing).  (* right brace *)

Definition UINT8_MAX : nat := 255.

(** Conversion to [uint8_t] / to the bit pattern of a [char]. *)
Definition to_uint8 (z : Z) : Z := z mod 256.
(** Conversion to [uint16_t]. *)
Definition to_uint16 (z : Z) : Z := z mod 65536.
(** Conversion to [uint32_t]. *)
Definition to_uint32 (z : Z) : Z := z mod 4294967296.
(** [(int32_t)x] for [x] a [uint32_t]. *)
Definition to_int32 (z : Z) : Z :=
  let u := to_uint32 z in
  if u <? 2147483648 then u else u - 4294967296.

(** ** Token kinds *)

Inductive TokenType : Set :=
| NEWLINE
| INDENT
| DEDENT
| STRING_START
| STRING_CONTENT
| STRING_END
| REGEX_START
| REGEX_CONTENT
| REGEX_END
| COMMENT
| CLOSE_PAREN
| CLOSE_BRACKET
| CLOSE_BRACE.

Definition TokenType_eq_dec (a b : TokenType) : {a = b} + {a <> b}.
Proof. decide equality. Defined.

(** The [valid_symbols] table of one call. *)
Definition ValidSymbols := TokenType -> bool.

(** The table in which exactly the kinds of [l] are requested. *)
Definition requested (l : list TokenType) : ValidSymbols :=
  fun t => if in_dec TokenType_eq_dec t l then true else false.

(** ** Delimiter *)

(** [struct Delimiter]: one [char] of flags, kept as its bit pattern. *)
Record Delimiter : Set := mkDelimiter { flags : Z }.

Definition SingleQuote : Z := Z.shiftl 1 0.
Definition DoubleQuote : Z := Z.shiftl 1 1.
Definition BackQuote : Z := Z.shiftl 1 2.

(** [Delimiter()]. *)
Definition new_delimiter : Delimiter := mkDelimiter 0.

Definition end_character (d : Delimiter) : Z :=
  if negb (Z.land (flags d) SingleQuote =? 0) then ch_squote
  else if negb (Z.land (flags d) DoubleQuote =? 0) then ch_dquote
  else if negb (Z.land (flags d) BackQuote =? 0) then ch_backquote
  else 0.

(** The [default:] case is [assert(false)]; [scan] only ever passes one of
    the three quote characters, so it is left as the identity here. *)
Definition set_end_character (d : Delimiter) (character : Z) : Delimiter :=
  if character =? ch_squote then mkDelimiter (Z.lor (flags d) SingleQuote)
  else if character =? ch_dquote then mkDelimiter (Z.lor (flags d) DoubleQuote)
  else if character =? ch_backquote then mkDelimiter (Z.lor (flags d) BackQuote)
  else d.

(** ** Scanner state *)

(** [struct Scanner].  The vector is a list in storage order: index 0 first,
    [back()] last. *)
Record Scanner : Type := mkScanner {
  previous_indent_length : Z;             (* uint16_t *)
  delimiter_stack : list Delimiter        (* vector<Delimiter> *)
}.

(** The initial zero state of a parsing session: empty stack, baseline 0.
    (The constructor empties the stack through [deserialize(NULL, 0)] and
    assigns no baseline of its own.) *)
Definition zero_state : Scanner := mkScanner 0 [].

Definition back (s : Scanner) : Delimiter := last (delimiter_stack s) new_delimiter.

Definition pop_back (s : Scanner) : Scanner :=
  mkScanner (previous_indent_length s) (removelast (delimiter_stack s)).

Definition push_back (s : Scanner) (d : Delimiter) : Scanner :=
  mkScanner (previous_indent_length s) (delimiter_stack s ++ [d]).

Definition set_previous_indent_length (s : Scanner) (v : Z) : Scanner :=
  mkScanner (to_uint16 v) (delimiter_stack s).

(** ** Serialization *)

(** A [char] buffer: the byte (bit pattern, 0..255) at each index. *)
Definition Buffer := nat -> Z.

(** Writing the byte [b] at index [i]. *)
Definition store_byte (buffer : Buffer) (i : nat) (b : Z) : Buffer :=
  fun j => if Nat.eqb j i then b else buffer j.

(** [buffer[i] = v] for [v] of a wider type: the value is converted. *)
Definition store (buffer : Buffer) (i : nat) (v : Z) : Buffer :=
  store_byte buffer i (to_uint8 v).

(** [memcpy(&buffer[i], data, n)] for [data] the bytes of the delimiters,
    copied as they are. *)
Fixpoint memcpy_to (buffer : Buffer) (i : nat) (data : list Delimiter) (n : nat) : Buffer :=
  match n, data with
  | S n', d :: data' => memcpy_to (store_byte buffer i (flags d)) (S i) data' n'
  | _, _ => buffer
  end.

(** [memcpy(data, &buffer[i], n)]: the delimiters read, one per byte. *)
Definition memcpy_from (buffer : Buffer) (i : nat) (n : nat) : list Delimiter :=
  map (fun j => mkDelimiter (buffer j)) (seq i n).

(** [Scanner::serialize]: the buffer after the call and the returned length. *)
Definition serialize (s : Scanner) (buffer : Buffer) : Buffer * nat :=
  let i := 0%nat in
  let delimiter_count := length (delimiter_stack s) in
  let delimiter_count :=
    if Nat.ltb UINT8_MAX delimiter_count then UINT8_MAX else delimiter_count in
  let buffer := store buffer i (Z.of_nat delimiter_count) in
  let i := S i in
  let buffer :=
    if Nat.ltb 0 delimiter_count
    then memcpy_to buffer i (delimiter_stack s) delimiter_count
    else buffer in
  let i := (i + delimiter_count)%nat in
  let buffer := store buffer i (previous_indent_length s) in
  let i := S i in
  (buffer, i).

Section Deserialize.

(** Whether plain [char] is a signed type is the compiler's choice; it
    decides how a stored byte converts back to [uint16_t]. *)
Variable char_is_signed : bool.

Definition char_to_uint16 (b : Z) : Z :=
  if char_is_signed && (128 <=? b) then to_uint16 (b - 256) else to_uint16 b.

(** [Scanner::deserialize]: the state after the call, and the indices of
    [buffer] it read, in order. *)
Definition deserialize (buffer : Buffer) (length : nat) (s : Scanner)
  : Scanner * list nat :=
  let stack : list Delimiter := [] in                       (* clear() *)
  if Nat.ltb 0 length then
    let i := 0%nat in
    let delimiter_count := Z.to_nat (to_uint8 (buffer i)) in
    let reads := [i] in
    let i := S i in
    let stack := repeat new_delimiter delimiter_count in    (* resize() *)
    let '(stack, reads) :=
      if Nat.ltb 0 delimiter_count
      then (memcpy_from buffer i delimiter_count,
            reads ++ seq i delimiter_count)
      else (stack, reads) in
    let i := (i + delimiter_count)%nat in
    let previous := char_to_uint16 (buffer i) in
    let reads := reads ++ [i] in
    (mkScanner previous stack, reads)
  else
    (mkScanner (previous_indent_length s) stack, []).

End Deserialize.


(** ** The host lexer *)

(** Modelled from the spec: the [TSLexer] the host passes to [scan]
    (tree_sitter/parser.h is not part of the sources).  It gives one
    character of lookahead, which is 0 at the end of the input, a way to
    advance, consuming the character as token content or skipping it as
    trivia, a way to mark the current position as the end of the token, and
    the slot for the kind of the token found. *)
Record TSLexer : Type := mkLexer {
  input : list Z;              (* the characters not yet consumed *)
  position : nat;              (* how many characters were consumed *)
  token_start : nat;           (* moved along by skipped characters *)
  token_end : nat;             (* set by mark_end *)
  result_symbol : TokenType
}.

Definition lookahead (lexer : TSLexer) : Z :=
  match input lexer with
  | [] => ch_nul
  | c :: _ => c
  end.

(** [lexer->advance(lexer, skip)]; nothing happens at the end of the input. *)
Definition lexer_advance (lexer : TSLexer) (skip : bool) : TSLexer :=
  match input lexer with
  | [] => lexer
  | _ :: rest =>
      mkLexer rest (S (position lexer))
              (if skip then S (position lexer) else token_start lexer)
              (token_end lexer) (result_symbol lexer)
  end.

Definition mark_end (lexer : TSLexer) : TSLexer :=
  mkLexer (input lexer) (position lexer) (token_start lexer)
          (position lexer) (result_symbol lexer).

Definition set_result_symbol (lexer : TSLexer) (t : TokenType) : TSLexer :=
  mkLexer (input lexer) (position lexer) (token_start lexer)
          (token_end lexer) t.

(** A lexer at the beginning of the given text. *)
Definition lexer_at (text : list Z) : TSLexer := mkLexer text 0 0 0 NEWLINE.

(** [Scanner::advance] and [Scanner::skip]. *)
Definition advance (lexer : TSLexer) : TSLexer := lexer_advance lexer false.
Definition skip (lexer : TSLexer) : TSLexer := lexer_advance lexer true.

(** ** scan *)

(** What a call of [scan] gives back: the returned flag, the scanner state
    and the lexer after the call. *)
Definition ScanResult : Type := bool * Scanner * TSLexer.

(** A part of [scan] either returns from the call or falls through to the
    code after it. *)
Inductive Flow : Type :=
| Return (r : ScanResult)
| FallThrough (lexer : TSLexer).

(** The two flags computed at the head of [scan]. *)
Definition error_recovery_mode (valid_symbols : ValidSymbols) : bool :=
  (valid_symbols STRING_CONTENT || valid_symbols REGEX_CONTENT)
  && valid_symbols INDENT.

Definition within_brackets (valid_symbols : ValidSymbols) : bool :=
  valid_symbols CLOSE_BRACE || valid_symbols CLOSE_PAREN
  || valid_symbols CLOSE_BRACKET.

(** The loops are iterated on a counter; [None] stands for a counter that
    ran out, which [scan_total] below excludes for the counters [scan]
    uses. *)
Fixpoint string_content_loop (fuel : nat) (s : Scanner) (end_char : Z)
    (has_content : bool) (lexer : TSLexer) : option Flow :=
  match fuel with
  | O => None
  | S fuel' =>
    if lookahead lexer =? ch_nul then Some (FallThrough lexer)
    else if (lookahead lexer =? ch_lbrace) || (lookahead lexer =? ch_rbrace) then
      let lexer := mark_end lexer in
      let lexer := set_result_symbol lexer STRING_CONTENT in
      Some (Return (has_content, s, lexer))
    else if lookahead lexer =? ch_backslash then
      let lexer := mark_end lexer in
      let lexer := set_result_symbol lexer STRING_CONTENT in
      Some (Return (has_content, s, lexer))
    else if lookahead lexer =? end_char then
      if has_content then
        let lexer := set_result_symbol lexer STRING_CONTENT in
        let lexer := mark_end lexer in
        Some (Return (true, s, lexer))
      else
        let lexer := lexer_advance lexer false in
        let s := pop_back s in
        let lexer := set_result_symbol lexer STRING_END in
        let lexer := mark_end lexer in
        Some (Return (true, s, lexer))
    else if (lookahead lexer =? ch_lf) && has_content then
      Some (Return (false, s, lexer))
    else
      string_content_loop fuel' s end_char true (advance lexer)
  end.

Fixpoint regex_content_loop (fuel : nat) (s : Scanner)
    (has_content : bool) (lexer : TSLexer) : option Flow :=
  match fuel with
  | O => None
  | S fuel' =>
    if lookahead lexer =? ch_nul then Some (FallThrough lexer)
    else if lookahead lexer =? ch_backslash then
      let lexer := mark_end lexer in
      let lexer := set_result_symbol lexer REGEX_CONTENT in
      Some (Return (has_content, s, lexer))
    else if lookahead lexer =? ch_slash then
      if has_content then
        let lexer := set_result_symbol lexer REGEX_CONTENT in
        let lexer := mark_end lexer in
        Some (Return (true, s, lexer))
      else
        let lexer := lexer_advance lexer false in
        let lexer := set_result_symbol lexer REGEX_END in
        let lexer := mark_end lexer in
        Some (Return (true, s, lexer))
    else if (lookahead lexer =? ch_lf) && has_content then
      Some (Return (false, s, lexer))
    else
      regex_content_loop fuel' s true (advance lexer)
  end.

(** The local variables of the layout loop. *)
Record Layout : Type := mkLayout {
  found_end_of_line : bool;
  indent_length : Z;                      (* uint32_t *)
  first_comment_indent_length : Z         (* int32_t, -1 for no comment *)
}.

Definition layout_init : Layout := mkLayout false 0 (-1).

(** The inner loop of the comment case: skip up to a newline or the end. *)
Fixpoint comment_loop (fuel : nat) (lexer : TSLexer) : option TSLexer :=
  match fuel with
  | O => None
  | S fuel' =>
    if negb (lookahead lexer =? ch_nul) && negb (lookahead lexer =? ch_lf)
    then comment_loop fuel' (skip lexer)
    else Some lexer
  end.

(** One turn of the [for (;;)] loop. *)
Inductive Turn : Type :=
| Continue (lexer : TSLexer) (v : Layout)
| Break (lexer : TSLexer) (v : Layout)
| Fail (lexer : TSLexer).                 (* return false *)

Definition layout_turn (lexer : TSLexer) (v : Layout) : option Turn :=
  let eol := found_end_of_line v in
  let indent := indent_length v in
  let first := first_comment_indent_length v in
  if lookahead lexer =? ch_lf then
    Some (Continue (skip lexer) (mkLayout true 0 first))
  else if lookahead lexer =? ch_space then
    Some (Continue (skip lexer) (mkLayout eol (to_uint32 (indent + 1)) first))
  else if lookahead lexer =? ch_cr then
    Some (Continue (skip lexer) (mkLayout eol 0 first))
  else if lookahead lexer =? ch_tab then
    Some (Continue (skip lexer) (mkLayout eol (to_uint32 (indent + 8)) first))
  else if lookahead lexer =? ch_hash then
    let first := if first =? -1 then to_int32 indent else first in
    match comment_loop (S (length (input lexer))) lexer with
    | None => None
    | Some lexer => Some (Continue (skip lexer) (mkLayout eol 0 first))
    end
  else if lookahead lexer =? ch_backslash then
    let lexer := skip lexer in
    let lexer := if lookahead lexer =? ch_cr then skip lexer else lexer in
    if lookahead lexer =? ch_lf
    then Some (Continue (skip lexer) v)
    else Some (Fail lexer)
  else if lookahead lexer =? ch_ff then
    Some (Continue (skip lexer) (mkLayout eol 0 first))
  else if lookahead lexer =? ch_nul then
    Some (Break lexer (mkLayout true 0 first))
  else
    Some (Break lexer v).

(** How the layout loop ends. *)
Inductive Measure : Type :=
| Measured (lexer : TSLexer) (v : Layout)
| Invalid (lexer : TSLexer).

Fixpoint layout_loop (fuel : nat) (lexer : TSLexer) (v : Layout) : option Measure :=
  match fuel with
  | O => None
  | S fuel' =>
    match layout_turn lexer v with
    | None => None
    | Some (Continue lexer v) => layout_loop fuel' lexer v
    | Some (Break lexer v) => Some (Measured lexer v)
    | Some (Fail lexer) => Some (Invalid lexer)
    end
  end.

(** The indentation tokens, decided when the layout loop saw the end of a
    line.  The cast of the [uint16_t] baseline to [int32_t] keeps its value. *)
Definition indentation_token (s : Scanner) (valid_symbols : ValidSymbols)
    (lexer : TSLexer) (v : Layout) : Flow :=
  let error_recovery_mode := error_recovery_mode valid_symbols in
  let within_brackets := within_brackets valid_symbols in
  if found_end_of_line v then
    if valid_symbols INDENT
       && (previous_indent_length s =? 0)
       && (0 <? indent_length v)
    then
      let s := set_previous_indent_length s (indent_length v) in
      Return (true, s, set_result_symbol lexer INDENT)
    else if (valid_symbols DEDENT
             || (negb (valid_symbols NEWLINE) && negb within_brackets))
            && (0 <? previous_indent_length s)
            && (indent_length v =? 0)
            && (first_comment_indent_length v <? previous_indent_length s)
    then
      let s := set_previous_indent_length s (indent_length v) in
      Return (true, s, set_result_symbol lexer DEDENT)
    else if valid_symbols NEWLINE && negb error_recovery_mode
    then Return (true, s, set_result_symbol lexer NEWLINE)
    else FallThrough lexer
  else FallThrough lexer.

(** The opener of a string literal. *)
Definition string_start (s : Scanner) (valid_symbols : ValidSymbols)
    (lexer : TSLexer) (v : Layout) : Flow :=
  if (first_comment_indent_length v =? -1) && valid_symbols STRING_START then
    let delimiter := new_delimiter in
    let '(delimiter, lexer) :=
      if lookahead lexer =? ch_backquote then
        (set_end_character delimiter ch_backquote, mark_end (advance lexer))
      else if lookahead lexer =? ch_squote then
        (set_end_character delimiter ch_squote, mark_end (advance lexer))
      else if lookahead lexer =? ch_dquote then
        (set_end_character delimiter ch_dquote, mark_end (advance lexer))
      else (delimiter, lexer) in
    if negb (end_character delimiter =? 0)
    then Return (true, push_back s delimiter,
                 set_result_symbol lexer STRING_START)
    else FallThrough lexer
  else FallThrough lexer.

(** The opener of a regex literal, and the final [return false]. *)
Definition regex_start (s : Scanner) (valid_symbols : ValidSymbols)
    (lexer : TSLexer) (v : Layout) : ScanResult :=
  if (first_comment_indent_length v =? -1) && valid_symbols REGEX_START
     && (lookahead lexer =? ch_slash)
  then (true, s, set_result_symbol (mark_end (advance lexer)) REGEX_START)
  else (false, s, lexer).

(** The code after the layout loop. *)
Definition layout_decide (s : Scanner) (valid_symbols : ValidSymbols)
    (lexer : TSLexer) (v : Layout) : ScanResult :=
  match indentation_token s valid_symbols lexer v with
  | Return r => r
  | FallThrough lexer =>
    match string_start s valid_symbols lexer v with
    | Return r => r
    | FallThrough lexer => regex_start s valid_symbols lexer v
    end
  end.

(** The two content scanners at the head of [scan]. *)
Definition content_scan (s : Scanner) (lexer : TSLexer)
    (valid_symbols : ValidSymbols) : option Flow :=
  let error_recovery_mode := error_recovery_mode valid_symbols in
  let in_string :=
    if valid_symbols STRING_CONTENT
       && negb (Nat.eqb (length (delimiter_stack s)) 0)
       && negb error_recovery_mode
    then
      let delimiter := back s in
      string_content_loop (S (length (input lexer))) s
                          (end_character delimiter) false lexer
    else Some (FallThrough lexer) in
  match in_string with
  | None => None
  | Some (Return r) => Some (Return r)
  | Some (FallThrough lexer) =>
    if valid_symbols REGEX_CONTENT && negb error_recovery_mode
    then regex_content_loop (S (length (input lexer))) s false lexer
    else Some (FallThrough lexer)
  end.

(** The layout scanner: everything of [scan] from the [mark_end] before the
    layout loop on. *)
Definition layout_scan (s : Scanner) (lexer : TSLexer)
    (valid_symbols : ValidSymbols) : option ScanResult :=
  let lexer := mark_end lexer in
  match layout_loop (S (length (input lexer))) lexer layout_init with
  | None => None
  | Some (Invalid lexer) => Some (false, s, lexer)
  | Some (Measured lexer v) => Some (layout_decide s valid_symbols lexer v)
  end.

(** [Scanner::scan]. *)
Definition scan (s : Scanner) (lexer : TSLexer) (valid_symbols : ValidSymbols)
  : option ScanResult :=
  match content_scan s lexer valid_symbols with
  | None => None
  | Some (Return r) => Some r
  | Some (FallThrough lexer) => layout_scan s lexer valid_symbols
  end.

(** The states the scanner can be in: those a sequence of [scan] calls
    reaches from the zero state. *)
Inductive reachable : Scanner -> Prop :=
| reachable_zero : reachable zero_state
| reachable_scan : forall s lexer valid_symbols flag s' lexer',
    reachable s ->
    scan s lexer valid_symbols = Some (flag, s', lexer') ->
    reachable s'.

(** ** Runs of content *)

(** The lexer after [n] more characters were consumed as token content,
    with [tail] left to read. *)
Definition advanced (lexer : TSLexer) (n : nat) (tail : list Z) : TSLexer :=
  mkLexer tail (position lexer + n) (token_start lexer) (token_end lexer)
          (result_symbol lexer).

(** A character the string-content loop consumes: not the end of the
    input, not a brace or backslash, not the closing quote, and not a
    newline once there is content. *)
Definition string_char (end_char : Z) (has_content : bool) (c : Z) : bool :=
  negb (c =? ch_nul)
  && negb ((c =? ch_lbrace) || (c =? ch_rbrace))
  && negb (c =? ch_backslash)
  && negb (c =? end_char)
  && negb ((c =? ch_lf) && has_content).

Fixpoint string_run_from (end_char : Z) (has_content : bool) (l : list Z) : bool :=
  match l with
  | [] => true
  | c :: l' => string_char end_char has_content c && string_run_from end_char true l'
  end.

(** A run of string content read from the start of a call. *)
Definition string_run (end_char : Z) (l : list Z) : bool :=
  string_run_from end_char false l.

(** The same for the regex-content loop. *)
Definition regex_char (has_content : bool) (c : Z) : bool :=
  negb (c =? ch_nul)
  && negb (c =? ch_backslash)
  && negb (c =? ch_slash)
  && negb ((c =? ch_lf) && has_content).

Fixpoint regex_run_from (has_content : bool) (l : list Z) : bool :=
  match l with
  | [] => true
  | c :: l' => regex_char has_content c && regex_run_from true l'
  end.

Definition regex_run (l : list Z) : bool := regex_run_from false l.

Definition is_empty (l : list Z) : bool :=
  match l with
  | [] => true
  | _ :: _ => false
  end.

(** ** Runs of layout *)

(** The lexer after [n] more characters were skipped, with [tail] left to
    read. *)
Definition skipped (lexer : TSLexer) (n : nat) (tail : list Z) : TSLexer :=
  mkLexer tail (position lexer + n)
          (if Nat.eqb n 0 then token_start lexer else (position lexer + n)%nat)
          (token_end lexer) (result_symbol lexer).

(** The layout loop gets from one point to another by turns that go on. *)
Inductive layout_reaches : TSLexer -> Layout -> TSLexer -> Layout -> Prop :=
| reaches_here : forall lexer v, layout_reaches lexer v lexer v
| reaches_turn : forall lexer v lexer1 v1 lexer2 v2,
    layout_turn lexer v = Some (Continue lexer1 v1) ->
    layout_reaches lexer1 v1 lexer2 v2 ->
    layout_reaches lexer v lexer2 v2.

(** The blank characters of the layout loop. *)
Definition is_blank (c : Z) : bool :=
  (c =? ch_lf) || (c =? ch_space) || (c =? ch_cr) || (c =? ch_tab) || (c =? ch_ff).

(** A character at which the layout loop stops with the second [break]. *)
Definition is_token_char (c : Z) : bool :=
  negb (is_blank c) && negb (c =? ch_hash) && negb (c =? ch_backslash)
  && negb (c =? ch_nul).


(** The same with the counter of the code, which is a [uint32_t]. *)
Definition blank_step (column : Z) (c : Z) : Z :=
  if c =? ch_space then to_uint32 (column + 1)
  else if c =? ch_tab then to_uint32 (column + 8)
  else 0.


(** The ways the code after the layout loop can end. *)
Inductive decided (s : Scanner) (valid_symbols : ValidSymbols) (v : Layout)
  : ScanResult -> Prop :=
| decided_indent : forall lexer',
    found_end_of_line v = true ->
    valid_symbols INDENT = true ->
    previous_indent_length s = 0 -> 0 < indent_length v ->
    result_symbol lexer' = INDENT ->
    decided s valid_symbols v
            (true, set_previous_indent_length s (indent_length v), lexer')
| decided_dedent : forall lexer',
    found_end_of_line v = true ->
    valid_symbols DEDENT
    || (negb (valid_symbols NEWLINE) && negb (within_brackets valid_symbols)) = true ->
    0 < previous_indent_length s -> indent_length v = 0 ->
    first_comment_indent_length v < previous_indent_length s ->
    result_symbol lexer' = DEDENT ->
    decided s valid_symbols v
            (true, set_previous_indent_length s (indent_length v), lexer')
| decided_newline : forall lexer',
    result_symbol lexer' = NEWLINE ->
    decided s valid_symbols v (true, s, lexer')
| decided_string_start : forall d lexer',
    result_symbol lexer' = STRING_START ->
    decided s valid_symbols v (true, push_back s d, lexer')
| decided_regex_start : forall lexer',
    result_symbol lexer' = REGEX_START ->
    decided s valid_symbols v (true, s, lexer')
| decided_nothing : forall lexer',
    decided s valid_symbols v (false, s, lexer').

(** ** Sequences of calls *)

(** The outcome of a loop with the state [s] put in the place of the one
    it returns. *)
Definition with_state (s : Scanner) (o : option Flow) : option Flow :=
  match o with
  | Some (Return (flag, _, lexer)) => Some (Return (flag, s, lexer))
  | _ => o
  end.

(** [follows s states]: a sequence of [scan] calls that starts in [s] goes
    through [states], one state per call. *)
Fixpoint follows (s : Scanner) (states : list Scanner) : Prop :=
  match states with
  | [] => True
  | s' :: states' =>
    (exists lexer valid_symbols flag lexer',
        scan s lexer valid_symbols = Some (flag, s', lexer'))
    /\ follows s' states'
  end.

(** The steps the baseline may take: none, from 0 up, or down to 0. *)
Definition baseline_step (a b : Z) : Prop :=
  a = b \/ (a = 0 /\ 0 < b) \/ (0 < a /\ b = 0).

Fixpoint baseline_steps (a : Z) (l : list Z) : Prop :=
  match l with
  | [] => True
  | b :: l' => baseline_step a b /\ baseline_steps b l'
  end.

(** ** The decisions after the layout loop, one by one *)

(** The test of the INDENT case. *)
Definition indent_due (s : Scanner) (valid_symbols : ValidSymbols) (v : Layout) : bool :=
  valid_symbols INDENT
  && (previous_indent_length s =? 0)
  && (0 <? indent_length v).

(** The test of the DEDENT case. *)
Definition dedent_due (s : Scanner) (valid_symbols : ValidSymbols) (v : Layout) : bool :=
  (valid_symbols DEDENT
   || (negb (valid_symbols NEWLINE) && negb (within_brackets valid_symbols)))
  && (0 <? previous_indent_length s)
  && (indent_length v =? 0)
  && (first_comment_indent_length v <? previous_indent_length s).

(** The test of the NEWLINE case. *)
Definition newline_due (valid_symbols : ValidSymbols) : bool :=
  valid_symbols NEWLINE && negb (error_recovery_mode valid_symbols).

(** The three characters that open a string literal. *)
Definition is_quote (c : Z) : bool :=
  (c =? ch_backquote) || (c =? ch_squote) || (c =? ch_dquote).

(** The flag of each of them. *)
Definition quote_flag (c : Z) : Z :=
  if c =? ch_squote then SingleQuote
  else if c =? ch_dquote then DoubleQuote
  else if c =? ch_backquote then BackQuote
  else 0.

(** The kinds [scan] sets as the result symbol. *)
Definition is_scanner_token (t : TokenType) : bool :=
  match t with
  | COMMENT | CLOSE_PAREN | CLOSE_BRACKET | CLOSE_BRACE => false
  | _ => true
  end.

(** The state [s] with the delimiters [below] under its stack. *)
Definition on_top_of (below : list Delimiter) (s : Scanner) : Scanner :=
  mkScanner (previous_indent_length s) (below ++ delimiter_stack s).

Definition result_on_top_of (below : list Delimiter) (r : option ScanResult)
  : option ScanResult :=
  match r with
  | Some (flag, s, lexer) => Some (flag, on_top_of below s, lexer)
  | None => None
  end.


(** The ways a call that returns true can have ended. *)
Inductive committed (s : Scanner) (valid_symbols : ValidSymbols)
  : Scanner -> TSLexer -> Prop :=
| committed_string_content : forall lexer',
    valid_symbols STRING_CONTENT = true ->
    delimiter_stack s <> [] ->
    error_recovery_mode valid_symbols = false ->
    result_symbol lexer' = STRING_CONTENT ->
    committed s valid_symbols s lexer'
| committed_string_end : forall lexer',
    valid_symbols STRING_CONTENT = true ->
    delimiter_stack s <> [] ->
    error_recovery_mode valid_symbols = false ->
    result_symbol lexer' = STRING_END ->
    committed s valid_symbols (pop_back s) lexer'
| committed_regex_content : forall lexer',
    valid_symbols REGEX_CONTENT = true ->
    error_recovery_mode valid_symbols = false ->
    result_symbol lexer' = REGEX_CONTENT ->
    committed s valid_symbols s lexer'
| committed_regex_end : forall lexer',
    valid_symbols REGEX_CONTENT = true ->
    error_recovery_mode valid_symbols = false ->
    result_symbol lexer' = REGEX_END ->
    committed s valid_symbols s lexer'
| committed_indent : forall v lexer',
    found_end_of_line v = true ->
    indent_due s valid_symbols v = true ->
    result_symbol lexer' = INDENT ->
    committed s valid_symbols
              (set_previous_indent_length s (indent_length v)) lexer'
| committed_dedent : forall v lexer',
    found_end_of_line v = true ->
    dedent_due s valid_symbols v = true ->
    result_symbol lexer' = DEDENT ->
    committed s valid_symbols
              (set_previous_indent_length s (indent_length v)) lexer'
| committed_newline : forall lexer',
    newline_due valid_symbols = true ->
    result_symbol lexer' = NEWLINE ->
    committed s valid_symbols s lexer'
| committed_string_start : forall q lexer',
    valid_symbols STRING_START = true ->
    is_quote q = true ->
    result_symbol lexer' = STRING_START ->
    committed s valid_symbols (push_back s (mkDelimiter (quote_flag q))) lexer'
| committed_regex_start : forall lexer',
    valid_symbols REGEX_START = true ->
    result_symbol lexer' = REGEX_START ->
    committed s valid_symbols s lexer'.

Definition flow_on_top_of (below : list Delimiter) (f : option Flow) : option Flow :=
  match f with
  | Some (Return (flag, s, lexer)) => Some (Return (flag, on_top_of below s, lexer))
  | _ => f
  end.

(** ** The margin of a line *)

(** The characters that indent a line. *)
Definition is_margin_char (c : Z) : bool := (c =? ch_space) || (c =? ch_tab).

(** The width of a margin: 8 columns for a tab, 1 for a space. *)
Fixpoint margin_width (margin : list Z) : Z :=
  match margin with
  | [] => 0
  | c :: margin' => (if c =? ch_tab then 8 else 1) + margin_width margin'
  end.

(** ** The closing character of a delimiter, bit by bit *)

(** [closes d q]: [q] is the character that closes [d], as [end_character]
    tests the flags: the single quote first, then the double quote, then
    the backquote, and 0 when none of the three bits is set. *)
Inductive closes (d : Delimiter) : Z -> Prop :=
| closes_single :
    Z.testbit (flags d) 0 = true -> closes d ch_squote
| closes_double :
    Z.testbit (flags d) 0 = false -> Z.testbit (flags d) 1 = true ->
    closes d ch_dquote
| closes_back :
    Z.testbit (flags d) 0 = false -> Z.testbit (flags d) 1 = false ->
    Z.testbit (flags d) 2 = true -> closes d ch_backquote
| closes_nothing :
    Z.testbit (flags d) 0 = false -> Z.testbit (flags d) 1 = false ->
    Z.testbit (flags d) 2 = false -> closes d ch_nul.

(** ** The line boundaries of the layout loop *)


(** * Properties *)

(** ** Proof tools *)

Ltac break_if :=
  match goal with
  | |- context [if ?c then _ else _] => destruct c eqn:?
  | H : context [if ?c then _ else _] |- _ => destruct c eqn:?
  end.

Ltac inv H := inversion H; subst; clear H.

(** ** The lexer *)

Lemma lookahead_cons (lexer : TSLexer) (c : Z) (rest : list Z) :
  input lexer = c :: rest -> lookahead lexer = c.
Proof. unfold lookahead; intros ->; reflexivity. Qed.

Lemma lookahead_nonzero_input (lexer : TSLexer) :
  lookahead lexer <> 0 ->
  exists rest, input lexer = lookahead lexer :: rest.
Proof.
  unfold lookahead; destruct (input lexer) as [|c rest]; intros H.
  - contradiction.
  - now exists rest.
Qed.

Lemma input_lexer_advance_cons (lexer : TSLexer) (b : bool) (c : Z) (rest : list Z) :
  input lexer = c :: rest -> input (lexer_advance lexer b) = rest.
Proof. unfold lexer_advance; intros ->; reflexivity. Qed.

Lemma length_lexer_advance (lexer : TSLexer) (b : bool) :
  (length (input (lexer_advance lexer b)) <= length (input lexer))%nat.
Proof.
  unfold lexer_advance; destruct (input lexer) eqn:E; simpl.
  - rewrite E; simpl; lia.
  - lia.
Qed.

Lemma length_lexer_advance_lt (lexer : TSLexer) (b : bool) :
  lookahead lexer <> 0 ->
  (length (input (lexer_advance lexer b)) < length (input lexer))%nat.
Proof.
  intros H; destruct (lookahead_nonzero_input _ H) as [rest E].
  rewrite (input_lexer_advance_cons _ _ _ _ E), E; simpl; lia.
Qed.

Lemma input_mark_end (lexer : TSLexer) : input (mark_end lexer) = input lexer.
Proof. reflexivity. Qed.

Lemma input_set_result_symbol (lexer : TSLexer) (t : TokenType) :
  input (set_result_symbol lexer t) = input lexer.
Proof. reflexivity. Qed.

Lemma lookahead_mark_end (lexer : TSLexer) : lookahead (mark_end lexer) = lookahead lexer.
Proof. reflexivity. Qed.

(** ** Every loop ends within its counter *)

Lemma string_content_loop_total (fuel : nat) :
  forall s end_char has_content lexer,
    (length (input lexer) < fuel)%nat ->
    exists f, string_content_loop fuel s end_char has_content lexer = Some f.
Proof.
  induction fuel as [|fuel IH]; intros s end_char has_content lexer Hlen; [lia|].
  simpl.
  destruct (lookahead lexer =? 0) eqn:E0; [eauto|].
  repeat break_if; eauto.
  apply IH. apply Z.eqb_neq in E0.
  pose proof (length_lexer_advance_lt lexer false E0). unfold advance. lia.
Qed.

Lemma regex_content_loop_total (fuel : nat) :
  forall s has_content lexer,
    (length (input lexer) < fuel)%nat ->
    exists f, regex_content_loop fuel s has_content lexer = Some f.
Proof.
  induction fuel as [|fuel IH]; intros s has_content lexer Hlen; [lia|].
  simpl.
  destruct (lookahead lexer =? 0) eqn:E0; [eauto|].
  repeat break_if; eauto.
  apply IH. apply Z.eqb_neq in E0.
  pose proof (length_lexer_advance_lt lexer false E0). unfold advance. lia.
Qed.

Lemma comment_loop_total (fuel : nat) :
  forall lexer,
    (length (input lexer) < fuel)%nat ->
    exists lexer', comment_loop fuel lexer = Some lexer'
                   /\ (length (input lexer') <= length (input lexer))%nat.
Proof.
  induction fuel as [|fuel IH]; intros lexer Hlen; [lia|].
  simpl.
  destruct (lookahead lexer =? 0) eqn:E0; simpl; [eauto|].
  destruct (lookahead lexer =? 10) eqn:E1; simpl; [eauto|].
  apply Z.eqb_neq in E0.
  pose proof (length_lexer_advance_lt lexer true E0) as Hlt.
  destruct (IH (skip lexer)) as (lexer' & -> & Hle); [unfold skip; lia|].
  exists lexer'; split; [reflexivity|]. unfold skip in Hle. lia.
Qed.

Lemma comment_loop_hash (fuel : nat) (lexer : TSLexer) :
  lookahead lexer = 35 ->
  comment_loop (S fuel) lexer = comment_loop fuel (skip lexer).
Proof. intros H; simpl; rewrite H; reflexivity. Qed.

(** A turn that goes on has consumed at least one character. *)
Lemma layout_turn_total (lexer : TSLexer) (v : Layout) :
  exists t, layout_turn lexer v = Some t
            /\ forall lexer' v', t = Continue lexer' v' ->
                 (length (input lexer') < length (input lexer))%nat.
Proof.
  unfold layout_turn.
  assert (Hskip : lookahead lexer <> 0 ->
                  (length (input (skip lexer)) < length (input lexer))%nat)
    by (apply length_lexer_advance_lt).
  assert (Hle : forall l, (length (input (skip l)) <= length (input l))%nat)
    by (intros; apply length_lexer_advance).
  destruct (lookahead lexer =? 10) eqn:E1.
  { eexists; split; [reflexivity|]. intros ? ? H; inv H. apply Hskip.
    apply Z.eqb_eq in E1. lia. }
  destruct (lookahead lexer =? 32) eqn:E2.
  { eexists; split; [reflexivity|]. intros ? ? H; inv H. apply Hskip.
    apply Z.eqb_eq in E2. lia. }
  destruct (lookahead lexer =? 13) eqn:E3.
  { eexists; split; [reflexivity|]. intros ? ? H; inv H. apply Hskip.
    apply Z.eqb_eq in E3. lia. }
  destruct (lookahead lexer =? 9) eqn:E4.
  { eexists; split; [reflexivity|]. intros ? ? H; inv H. apply Hskip.
    apply Z.eqb_eq in E4. lia. }
  destruct (lookahead lexer =? 35) eqn:E5.
  { apply Z.eqb_eq in E5.
    assert (Hne : lookahead lexer <> 0) by lia.
    rewrite (comment_loop_hash _ _ E5).
    destruct (comment_loop_total (length (input lexer)) (skip lexer))
      as (lexer1 & -> & Hlen); [apply Hskip; exact Hne|].
    eexists; split; [reflexivity|]. intros ? ? H; inv H.
    specialize (Hskip Hne). pose proof (Hle lexer1). lia. }
  destruct (lookahead lexer =? 92) eqn:E6.
  { apply Z.eqb_eq in E6. assert (Hne : lookahead lexer <> 0) by lia.
    specialize (Hskip Hne).
    break_if; break_if; eexists; (split; [reflexivity|]); intros ? ? H; inv H.
    - pose proof (Hle (skip (skip lexer))). pose proof (Hle (skip lexer)). lia.
    - pose proof (Hle (skip lexer)). lia. }
  destruct (lookahead lexer =? 12) eqn:E7.
  { eexists; split; [reflexivity|]. intros ? ? H; inv H. apply Hskip.
    apply Z.eqb_eq in E7. lia. }
  break_if; eexists; (split; [reflexivity|]); intros ? ? H; inv H.
Qed.

Lemma layout_loop_total (fuel : nat) :
  forall lexer v,
    (length (input lexer) < fuel)%nat ->
    exists m, layout_loop fuel lexer v = Some m.
Proof.
  induction fuel as [|fuel IH]; intros lexer v Hlen; [lia|].
  simpl.
  destruct (layout_turn_total lexer v) as (t & -> & Hdec).
  destruct t as [lexer' v'| |]; eauto.
  apply IH. specialize (Hdec _ _ eq_refl). lia.
Qed.

Lemma content_scan_total (s : Scanner) (lexer : TSLexer) (valid_symbols : ValidSymbols) :
  exists f, content_scan s lexer valid_symbols = Some f.
Proof.
  unfold content_scan.
  assert (Hregex : forall lexer1,
    exists f, (if valid_symbols REGEX_CONTENT
                  && negb (error_recovery_mode valid_symbols)
               then regex_content_loop (S (length (input lexer1))) s false lexer1
               else Some (FallThrough lexer1)) = Some f).
  { intros lexer1. break_if; [|eauto]. apply regex_content_loop_total. lia. }
  break_if.
  - destruct (string_content_loop_total (S (length (input lexer))) s
                (end_character (back s)) false lexer) as [f ->]; [lia|].
    destruct f; eauto.
  - apply Hregex.
Qed.

Lemma layout_scan_total (s : Scanner) (lexer : TSLexer) (valid_symbols : ValidSymbols) :
  exists r, layout_scan s lexer valid_symbols = Some r.
Proof.
  unfold layout_scan.
  destruct (layout_loop_total (S (length (input (mark_end lexer))))
              (mark_end lexer) layout_init) as [m ->]; [lia|].
  destruct m; eauto.
Qed.

(** [scan] always returns. *)
Theorem scan_total (s : Scanner) (lexer : TSLexer) (valid_symbols : ValidSymbols) :
  exists r, scan s lexer valid_symbols = Some r.
Proof.
  unfold scan.
  destruct (content_scan_total s lexer valid_symbols) as [f ->].
  destruct f; [eauto|]. apply layout_scan_total.
Qed.

(** ** How one call changes the state *)

Lemma string_content_loop_state (fuel : nat) :
  forall s end_char has_content lexer flag s' lexer',
    string_content_loop fuel s end_char has_content lexer
      = Some (Return (flag, s', lexer')) ->
    s' = s \/ (flag = true /\ s' = pop_back s).
Proof.
  induction fuel as [|fuel IH]; intros s end_char has_content lexer flag s' lexer' H;
    [discriminate|].
  simpl in H.
  repeat break_if; try discriminate; try (inv H; auto; fail).
  eapply IH; eassumption.
Qed.

Lemma regex_content_loop_state (fuel : nat) :
  forall s has_content lexer flag s' lexer',
    regex_content_loop fuel s has_content lexer
      = Some (Return (flag, s', lexer')) ->
    s' = s.
Proof.
  induction fuel as [|fuel IH]; intros s has_content lexer flag s' lexer' H;
    [discriminate|].
  simpl in H.
  repeat break_if; try discriminate; try (inv H; auto; fail).
  eapply IH; eassumption.
Qed.

Lemma content_scan_state (s : Scanner) (lexer : TSLexer) (valid_symbols : ValidSymbols)
    (flag : bool) (s' : Scanner) (lexer' : TSLexer) :
  content_scan s lexer valid_symbols = Some (Return (flag, s', lexer')) ->
  s' = s \/ (flag = true /\ s' = pop_back s).
Proof.
  unfold content_scan; intros H.
  destruct (valid_symbols STRING_CONTENT
            && negb (Nat.eqb (length (delimiter_stack s)) 0)
            && negb (error_recovery_mode valid_symbols)).
  - destruct (string_content_loop _ s _ false lexer) as [[r|lexer1]|] eqn:E;
      try discriminate.
    + inv H. eapply string_content_loop_state; eassumption.
    + break_if; [|discriminate].
      left. eapply regex_content_loop_state; eassumption.
  - break_if; [|discriminate].
    left. eapply regex_content_loop_state; eassumption.
Qed.

Lemma open_literal_decided (s : Scanner) (valid_symbols : ValidSymbols)
    (lexer : TSLexer) (v : Layout) :
  decided s valid_symbols v
    match string_start s valid_symbols lexer v with
    | Return r => r
    | FallThrough lexer => regex_start s valid_symbols lexer v
    end.
Proof.
  unfold string_start, regex_start.
  repeat break_if; try discriminate;
    match goal with
    | H : (_, _) = (_, _) |- _ => inv H
    | _ => idtac
    end;
    first [ apply decided_string_start; reflexivity
          | apply decided_regex_start; reflexivity
          | apply decided_nothing ].
Qed.

Lemma layout_decide_decided (s : Scanner) (valid_symbols : ValidSymbols)
    (lexer : TSLexer) (v : Layout) :
  decided s valid_symbols v (layout_decide s valid_symbols lexer v).
Proof.
  unfold layout_decide, indentation_token.
  destruct (found_end_of_line v) eqn:Eeol; [|apply open_literal_decided].
  destruct (valid_symbols INDENT && (previous_indent_length s =? 0)
            && (0 <? indent_length v)) eqn:Ei.
  { apply andb_prop in Ei as [Ei Hpos]. apply andb_prop in Ei as [Hv Hzero].
    apply decided_indent; auto; lia. }
  destruct ((valid_symbols DEDENT
             || negb (valid_symbols NEWLINE)
                && negb (within_brackets valid_symbols))
            && (0 <? previous_indent_length s)
            && (indent_length v =? 0)
            && (first_comment_indent_length v <? previous_indent_length s)) eqn:Ed.
  { apply andb_prop in Ed as [Ed Hf]. apply andb_prop in Ed as [Ed Hz].
    apply andb_prop in Ed as [Hv Hp].
    apply decided_dedent; auto; lia. }
  break_if; [apply decided_newline; reflexivity|].
  apply open_literal_decided.
Qed.

(** Every way a call of [scan] can end, as far as the state goes. *)
Lemma scan_cases (s : Scanner) (lexer : TSLexer) (valid_symbols : ValidSymbols)
    (r : ScanResult) :
  scan s lexer valid_symbols = Some r ->
  (exists lexer', r = (true, pop_back s, lexer'))
  \/ (exists flag lexer', r = (flag, s, lexer'))
  \/ (exists v, decided s valid_symbols v r).
Proof.
  unfold scan; intros H.
  destruct (content_scan s lexer valid_symbols) as [[[[flag s'] lexer']|lexer1]|] eqn:E;
    try discriminate.
  - inv H. apply content_scan_state in E as [->|[-> ->]]; eauto.
  - unfold layout_scan in H.
    destruct (layout_loop _ _ _) as [[lexer2 v|lexer2]|]; try discriminate; inv H.
    + right; right. exists v. apply layout_decide_decided.
    + right; left. eauto.
Qed.

Lemma to_uint16_range (z : Z) : 0 <= to_uint16 z < 65536.
Proof. unfold to_uint16. apply Z.mod_pos_bound. lia. Qed.

Lemma decided_baseline (s : Scanner) (valid_symbols : ValidSymbols) (v : Layout)
    (flag : bool) (s' : Scanner) (lexer' : TSLexer) :
  decided s valid_symbols v (flag, s', lexer') ->
  previous_indent_length s' = previous_indent_length s
  \/ (previous_indent_length s = 0 /\ 0 < previous_indent_length s'
      /\ flag = true /\ result_symbol lexer' = INDENT)
  \/ (0 < previous_indent_length s /\ previous_indent_length s' = 0
      /\ flag = true /\ result_symbol lexer' = DEDENT).
Proof.
  intros H; inversion H; subst; simpl; auto.
  - pose proof (to_uint16_range (indent_length v)).
    destruct (Z.eq_dec (to_uint16 (indent_length v)) 0) as [E|E].
    + left; lia.
    + right; left. repeat split; auto; lia.
  - right; right. match goal with E : indent_length v = 0 |- _ => rewrite E end.
    repeat split; auto.
Qed.

(** C10: a call of [scan] that returns false (no token) leaves the
    delimiter stack and the indentation baseline as they were, whatever the
    state, the input and the requested kinds. *)
Theorem scan_negative_keeps_state (s : Scanner) (lexer : TSLexer)
    (valid_symbols : ValidSymbols) (s' : Scanner) (lexer' : TSLexer) :
  scan s lexer valid_symbols = Some (false, s', lexer') ->
  delimiter_stack s' = delimiter_stack s
  /\ previous_indent_length s' = previous_indent_length s.
Proof.
  intros H. apply scan_cases in H as [(l & H)|[(f & l & H)|(v & H)]].
  - discriminate.
  - inv H. auto.
  - inversion H; subst; auto.
Qed.

Lemma scan_negative_keeps_state_witness :
  let s := mkScanner 4 [mkDelimiter 2] in
  let lexer := lexer_at [97; 98; 10; 99] in
  let lexer' := mkLexer [10; 99] 2 0 0 NEWLINE in
  scan s lexer (requested [STRING_CONTENT; DEDENT]) = Some (false, s, lexer')
  /\ delimiter_stack s = delimiter_stack s
  /\ previous_indent_length s = previous_indent_length s.
Proof.
  intros s lexer lexer'. split.
  - vm_compute. reflexivity.
  - apply (scan_negative_keeps_state s lexer
             (requested [STRING_CONTENT; DEDENT]) s lexer').
    vm_compute. reflexivity.
Defined.

Lemma scan_baseline_cases (s : Scanner) (lexer : TSLexer)
    (valid_symbols : ValidSymbols) (flag : bool) (s' : Scanner) (lexer' : TSLexer) :
  scan s lexer valid_symbols = Some (flag, s', lexer') ->
  previous_indent_length s' = previous_indent_length s
  \/ (previous_indent_length s = 0 /\ 0 < previous_indent_length s'
      /\ flag = true /\ result_symbol lexer' = INDENT)
  \/ (0 < previous_indent_length s /\ previous_indent_length s' = 0
      /\ flag = true /\ result_symbol lexer' = DEDENT).
Proof.
  intros H. apply scan_cases in H as [(l & H)|[(f & l & H)|(v & H)]].
  - inv H. left; reflexivity.
  - inv H. left; reflexivity.
  - eapply decided_baseline; eassumption.
Qed.

Lemma follows_baseline_steps (states : list Scanner) :
  forall s, follows s states ->
            baseline_steps (previous_indent_length s)
                           (map previous_indent_length states).
Proof.
  induction states as [|s' states IH]; intros s H; simpl; [exact I|].
  destruct H as [(lexer & valid_symbols & flag & lexer' & Hscan) Hrest].
  split; [|apply IH; exact Hrest].
  apply scan_baseline_cases in Hscan. unfold baseline_step.
  destruct Hscan as [E|[E|E]]; [left|right; left|right; right]; intuition.
Qed.

(** C9: one call of [scan] leaves the indentation baseline as it is, or
    takes it from 0 to a positive value (and then commits INDENT), or from
    a positive value to 0 (and then commits DEDENT); so no call takes it
    from a positive value to a different positive value.  This holds from
    every state, hence at every call of every sequence of calls. *)
Theorem scan_baseline_transition (s : Scanner) (lexer : TSLexer)
    (valid_symbols : ValidSymbols) (flag : bool) (s' : Scanner) (lexer' : TSLexer) :
  scan s lexer valid_symbols = Some (flag, s', lexer') ->
  (previous_indent_length s' = previous_indent_length s
   \/ (previous_indent_length s = 0 /\ 0 < previous_indent_length s'
       /\ flag = true /\ result_symbol lexer' = INDENT)
   \/ (0 < previous_indent_length s /\ previous_indent_length s' = 0
       /\ flag = true /\ result_symbol lexer' = DEDENT))
  /\ (0 < previous_indent_length s -> 0 < previous_indent_length s' ->
      previous_indent_length s' = previous_indent_length s)
  /\ (forall s0 states,
        follows s0 states ->
        baseline_steps (previous_indent_length s0)
                       (map previous_indent_length states)).
Proof.
  intros H. pose proof (scan_baseline_cases _ _ _ _ _ _ H) as T.
  split; [exact T|]. split.
  - intros Hs Hs'. destruct T as [T|[T|T]]; lia.
  - intros s0 states. apply follows_baseline_steps.
Qed.

Lemma scan_baseline_transition_witness :
  let s := mkScanner 4 [] in
  let lexer := lexer_at [10; 32; 32; 35; 99; 10; 120] in
  let s' := mkScanner 0 [] in
  let lexer' := mkLexer [120] 6 6 0 DEDENT in
  scan s lexer (requested [DEDENT; NEWLINE]) = Some (true, s', lexer')
  /\ 0 < previous_indent_length s /\ previous_indent_length s' = 0
  /\ result_symbol lexer' = DEDENT.
Proof.
  intros s lexer s' lexer'.
  assert (H : scan s lexer (requested [DEDENT; NEWLINE]) = Some (true, s', lexer'))
    by (vm_compute; reflexivity).
  split; [exact H|].
  destruct (proj1 (scan_baseline_transition s lexer (requested [DEDENT; NEWLINE])
                     true s' lexer' H)) as [T|[T|T]].
  - discriminate T.
  - destruct T as [T _]. discriminate T.
  - destruct T as (T1 & T2 & _ & T3). auto.
Defined.

(** ** The string-content scanner *)

Lemma advance_cons (lexer : TSLexer) (c : Z) (rest : list Z) :
  input lexer = c :: rest -> advance lexer = advanced lexer 1 rest.
Proof.
  unfold advance, lexer_advance, advanced; intros ->.
  f_equal. lia.
Qed.

Lemma advanced_zero (lexer : TSLexer) : advanced lexer 0 (input lexer) = lexer.
Proof.
  destruct lexer; unfold advanced; simpl. f_equal. lia.
Qed.

Lemma advanced_advanced (lexer : TSLexer) (n m : nat) (l1 l2 : list Z) :
  advanced (advanced lexer n l1) m l2 = advanced lexer (n + m) l2.
Proof. unfold advanced; simpl. f_equal. lia. Qed.

Lemma string_content_loop_run (pre : list Z) :
  forall fuel s end_char has_content lexer tail,
    input lexer = pre ++ tail ->
    string_run_from end_char has_content pre = true ->
    string_content_loop (length pre + fuel) s end_char has_content lexer
    = string_content_loop fuel s end_char (has_content || negb (is_empty pre))
        (advanced lexer (length pre) tail).
Proof.
  induction pre as [|a pre IH]; intros fuel s end_char has_content lexer tail Hin Hrun.
  - simpl in *. rewrite <- Hin, advanced_zero, orb_false_r. reflexivity.
  - simpl in Hrun. apply andb_prop in Hrun as [Ha Hrun].
    unfold string_char in Ha.
    repeat (apply andb_prop in Ha as [Ha ?]).
    simpl length. simpl Nat.add. simpl string_content_loop.
    rewrite (lookahead_cons lexer a (pre ++ tail) Hin).
    repeat match goal with
           | H : negb ?b = true |- _ => apply negb_true_iff in H; rewrite H
           end.
    rewrite (advance_cons lexer a (pre ++ tail) Hin).
    rewrite (IH fuel s end_char true (advanced lexer 1 (pre ++ tail)) tail eq_refl Hrun).
    rewrite advanced_advanced. simpl is_empty. rewrite orb_true_r. reflexivity.
Qed.

Lemma string_scanner_applies (s : Scanner) (lexer : TSLexer) (valid_symbols : ValidSymbols) :
  valid_symbols STRING_CONTENT = true ->
  delimiter_stack s <> [] ->
  valid_symbols INDENT = false ->
  scan s lexer valid_symbols
  = match string_content_loop (S (length (input lexer))) s
            (end_character (back s)) false lexer with
    | None => None
    | Some (Return r) => Some r
    | Some (FallThrough lexer1) =>
        match (if valid_symbols REGEX_CONTENT
               then regex_content_loop (S (length (input lexer1))) s false lexer1
               else Some (FallThrough lexer1)) with
        | None => None
        | Some (Return r) => Some r
        | Some (FallThrough lexer2) => layout_scan s lexer2 valid_symbols
        end
    end.
Proof.
  intros Hv Hs Hi. unfold scan, content_scan, error_recovery_mode.
  rewrite Hv, Hi.
  assert (Nat.eqb (length (delimiter_stack s)) 0 = false) as ->
    by (destruct (delimiter_stack s); [contradiction|reflexivity]).
  rewrite !andb_false_r. cbn [negb andb orb]. rewrite andb_true_r.
  destruct (string_content_loop _ _ _ _ _) as [[r|lexer1]|]; reflexivity.
Qed.

Lemma end_character_cases (d : Delimiter) :
  end_character d = 39 \/ end_character d = 34 \/ end_character d = 96
  \/ end_character d = 0.
Proof. unfold end_character; repeat break_if; auto. Qed.

Lemma string_content_loop_S (fuel : nat) (s : Scanner) (end_char : Z)
    (has_content : bool) (lexer : TSLexer) :
  string_content_loop (S fuel) s end_char has_content lexer
  = if lookahead lexer =? 0 then Some (FallThrough lexer)
    else if (lookahead lexer =? 123) || (lookahead lexer =? 125) then
      Some (Return (has_content, s, set_result_symbol (mark_end lexer) STRING_CONTENT))
    else if lookahead lexer =? 92 then
      Some (Return (has_content, s, set_result_symbol (mark_end lexer) STRING_CONTENT))
    else if lookahead lexer =? end_char then
      if has_content then
        Some (Return (true, s, mark_end (set_result_symbol lexer STRING_CONTENT)))
      else
        Some (Return (true, pop_back s,
                      mark_end (set_result_symbol (lexer_advance lexer false) STRING_END)))
    else if (lookahead lexer =? 10) && has_content then
      Some (Return (false, s, lexer))
    else string_content_loop fuel s end_char true (advance lexer).
Proof. reflexivity. Qed.

Lemma land_flag_testbit (f : Z) (k : Z) :
  0 <= k ->
  (Z.land f (Z.shiftl 1 k) =? 0) = negb (Z.testbit f k).
Proof.
  intros Hk. rewrite Z.shiftl_1_l.
  destruct (Z.testbit f k) eqn:E; simpl.
  - apply Z.eqb_neq. intros H.
    assert (T : Z.testbit (Z.land f (2 ^ k)) k = true).
    { rewrite Z.land_spec, E, Z.pow2_bits_true by lia. reflexivity. }
    rewrite H, Z.bits_0 in T. discriminate.
  - apply Z.eqb_eq. apply Z.bits_inj'. intros n Hn.
    rewrite Z.land_spec, Z.bits_0, Z.pow2_bits_eqb by lia.
    destruct (Z.eqb_spec k n); [subst; rewrite E; reflexivity|].
    apply andb_false_r.
Qed.

(** The end character read off the bits of the flags: the single quote
    comes first, then the double quote, then the backquote. *)
Lemma end_character_bits (d : Delimiter) :
  end_character d
  = if Z.testbit (flags d) 0 then 39
    else if Z.testbit (flags d) 1 then 34
    else if Z.testbit (flags d) 2 then 96
    else 0.
Proof.
  unfold end_character, SingleQuote, DoubleQuote, BackQuote.
  rewrite !land_flag_testbit by lia. rewrite !negb_involutive. reflexivity.
Qed.

Lemma closes_end_character (d : Delimiter) (q : Z) :
  closes d q -> end_character d = q.
Proof.
  intros H. rewrite end_character_bits.
  inversion H; subst;
    repeat match goal with E : Z.testbit _ _ = _ |- _ => rewrite E; clear E end;
    reflexivity.
Qed.

(** C4: the string-content scanner.  The call is one with STRING_CONTENT
    requested and INDENT not, on a stack whose top is the delimiter [d],
    closed by the character [q]; the input is a run [pre] of content
    followed by the character [c].  On a brace or a backslash the call
    stops in front of it and returns whether [pre] is non-empty, with
    STRING_CONTENT as the symbol.  On the quote [q] it returns
    STRING_CONTENT in front of the quote with the stack as it was when there
    is content, and otherwise consumes the quote, pops [d] and nothing else
    off the stack and returns STRING_END.  On a newline after content it
    returns false. *)
Theorem string_content_scanner (s : Scanner) (lexer : TSLexer)
    (valid_symbols : ValidSymbols) (below : list Delimiter) (d : Delimiter)
    (q : Z) (pre : list Z) (c : Z) (rest : list Z) :
  valid_symbols STRING_CONTENT = true ->
  delimiter_stack s = below ++ [d] ->
  closes d q ->
  valid_symbols INDENT = false ->
  input lexer = pre ++ c :: rest ->
  string_run q pre = true ->
  let here := (position lexer + length pre)%nat in
  (c = 123 \/ c = 125 \/ c = 92 ->
   scan s lexer valid_symbols
   = Some (negb (is_empty pre), s,
           mkLexer (c :: rest) here (token_start lexer) here STRING_CONTENT))
  /\ (c = q -> is_quote q = true -> pre <> [] ->
      scan s lexer valid_symbols
      = Some (true, s,
              mkLexer (c :: rest) here (token_start lexer) here STRING_CONTENT))
  /\ (c = q -> is_quote q = true -> pre = [] ->
      scan s lexer valid_symbols
      = Some (true, mkScanner (previous_indent_length s) below,
              mkLexer rest (S here) (token_start lexer) (S here) STRING_END))
  /\ (c = 10 -> pre <> [] ->
      scan s lexer valid_symbols
      = Some (false, s,
              mkLexer (c :: rest) here (token_start lexer) (token_end lexer)
                      (result_symbol lexer))).
Proof.
  intros Hv Hstack Hq Hi Hin Hrun here.
  assert (Hs : delimiter_stack s <> [])
    by (rewrite Hstack; intros E; apply app_eq_nil in E as [_ E]; discriminate).
  assert (Hback : end_character (back s) = q).
  { unfold back. rewrite Hstack, last_last. apply closes_end_character. exact Hq. }
  assert (Hpop : pop_back s = mkScanner (previous_indent_length s) below).
  { unfold pop_back. rewrite Hstack, removelast_last. reflexivity. }
  rewrite (string_scanner_applies s lexer valid_symbols Hv Hs Hi), Hback.
  clear Hback.
  replace (S (length (input lexer)))
    with (length pre + S (S (length rest)))%nat
    by (rewrite Hin, length_app; simpl; lia).
  rewrite (string_content_loop_run pre _ s q false lexer (c :: rest) Hin Hrun).
  cbn [orb]. rewrite string_content_loop_S.
  change (lookahead (advanced lexer (length pre) (c :: rest))) with c.
  assert (Hne : pre <> [] -> negb (is_empty pre) = true)
    by (destruct pre; [contradiction|reflexivity]).
  assert (Hcases : q = 39 \/ q = 34 \/ q = 96 \/ q = 0)
    by (inversion Hq; auto).
  split; [|split; [|split]].
  - intros [-> | [-> | ->]]; reflexivity.
  - intros -> Hquote Hpre. rewrite (Hne Hpre).
    destruct Hcases as [E|[E|[E|E]]]; subst q;
      first [discriminate Hquote | reflexivity].
  - intros -> Hquote ->. rewrite Hpop.
    destruct Hcases as [E|[E|[E|E]]]; subst q;
      first [ discriminate Hquote
            | cbn; unfold here; repeat f_equal; simpl; lia ].
  - intros -> Hpre. rewrite (Hne Hpre).
    destruct Hcases as [E|[E|[E|E]]]; subst q; reflexivity.
Qed.

(** The four rules at work on a stack of two delimiters, a double quote
    under a single quote: a brace after content, the closing single quote
    after content, the closing single quote at once, which pops the single
    quote and leaves the double quote, and a newline after content. *)
Lemma string_content_scanner_witness :
  scan (mkScanner 0 [mkDelimiter 2; mkDelimiter 1])
       (lexer_at [97; 34; 123; 120]) (requested [STRING_CONTENT])
  = Some (true, mkScanner 0 [mkDelimiter 2; mkDelimiter 1],
          mkLexer [123; 120] 2 0 2 STRING_CONTENT)
  /\ scan (mkScanner 0 [mkDelimiter 2; mkDelimiter 1])
          (lexer_at [97; 34; 39; 120]) (requested [STRING_CONTENT])
     = Some (true, mkScanner 0 [mkDelimiter 2; mkDelimiter 1],
             mkLexer [39; 120] 2 0 2 STRING_CONTENT)
  /\ scan (mkScanner 0 [mkDelimiter 2; mkDelimiter 1])
          (lexer_at [39; 120]) (requested [STRING_CONTENT])
     = Some (true, mkScanner 0 [mkDelimiter 2],
             mkLexer [120] 1 0 1 STRING_END)
  /\ scan (mkScanner 0 [mkDelimiter 2; mkDelimiter 1])
          (lexer_at [97; 10; 120]) (requested [STRING_CONTENT])
     = Some (false, mkScanner 0 [mkDelimiter 2; mkDelimiter 1],
             mkLexer [10; 120] 1 0 0 NEWLINE).
Proof.
  assert (Hq : closes (mkDelimiter 1) 39) by (apply closes_single; reflexivity).
  split; [|split; [|split]].
  - refine (proj1 (string_content_scanner
                     (mkScanner 0 [mkDelimiter 2; mkDelimiter 1])
                     (lexer_at [97; 34; 123; 120]) (requested [STRING_CONTENT])
                     [mkDelimiter 2] (mkDelimiter 1) 39 [97; 34] 123 [120]
                     eq_refl eq_refl Hq eq_refl eq_refl eq_refl) _).
    left; reflexivity.
  - refine (proj1 (proj2 (string_content_scanner
                     (mkScanner 0 [mkDelimiter 2; mkDelimiter 1])
                     (lexer_at [97; 34; 39; 120]) (requested [STRING_CONTENT])
                     [mkDelimiter 2] (mkDelimiter 1) 39 [97; 34] 39 [120]
                     eq_refl eq_refl Hq eq_refl eq_refl eq_refl)) eq_refl eq_refl _).
    discriminate.
  - exact (proj1 (proj2 (proj2 (string_content_scanner
                     (mkScanner 0 [mkDelimiter 2; mkDelimiter 1])
                     (lexer_at [39; 120]) (requested [STRING_CONTENT])
                     [mkDelimiter 2] (mkDelimiter 1) 39 [] 39 [120]
                     eq_refl eq_refl Hq eq_refl eq_refl eq_refl)))
                 eq_refl eq_refl eq_refl).
  - refine (proj2 (proj2 (proj2 (string_content_scanner
                     (mkScanner 0 [mkDelimiter 2; mkDelimiter 1])
                     (lexer_at [97; 10; 120]) (requested [STRING_CONTENT])
                     [mkDelimiter 2] (mkDelimiter 1) 39 [97] 10 [120]
                     eq_refl eq_refl Hq eq_refl eq_refl eq_refl))) eq_refl _).
    discriminate.
Defined.

(** ** The regex-content scanner *)

Lemma regex_content_loop_S (fuel : nat) (s : Scanner) (has_content : bool)
    (lexer : TSLexer) :
  regex_content_loop (S fuel) s has_content lexer
  = if lookahead lexer =? 0 then Some (FallThrough lexer)
    else if lookahead lexer =? 92 then
      Some (Return (has_content, s, set_result_symbol (mark_end lexer) REGEX_CONTENT))
    else if lookahead lexer =? 47 then
      if has_content then
        Some (Return (true, s, mark_end (set_result_symbol lexer REGEX_CONTENT)))
      else
        Some (Return (true, s,
                      mark_end (set_result_symbol (lexer_advance lexer false) REGEX_END)))
    else if (lookahead lexer =? 10) && has_content then
      Some (Return (false, s, lexer))
    else regex_content_loop fuel s true (advance lexer).
Proof. reflexivity. Qed.

Lemma regex_content_loop_run (pre : list Z) :
  forall fuel s has_content lexer tail,
    input lexer = pre ++ tail ->
    regex_run_from has_content pre = true ->
    regex_content_loop (length pre + fuel) s has_content lexer
    = regex_content_loop fuel s (has_content || negb (is_empty pre))
        (advanced lexer (length pre) tail).
Proof.
  induction pre as [|a pre IH]; intros fuel s has_content lexer tail Hin Hrun.
  - simpl in *. rewrite <- Hin, advanced_zero, orb_false_r. reflexivity.
  - simpl in Hrun. apply andb_prop in Hrun as [Ha Hrun].
    unfold regex_char in Ha.
    repeat (apply andb_prop in Ha as [Ha ?]).
    simpl length. simpl Nat.add. rewrite regex_content_loop_S.
    rewrite (lookahead_cons lexer a (pre ++ tail) Hin).
    repeat match goal with
           | H : negb ?b = true |- _ => apply negb_true_iff in H; rewrite H
           end.
    rewrite (advance_cons lexer a (pre ++ tail) Hin).
    rewrite (IH fuel s true (advanced lexer 1 (pre ++ tail)) tail eq_refl Hrun).
    rewrite advanced_advanced. simpl is_empty. rewrite orb_true_r. reflexivity.
Qed.

Lemma regex_scanner_applies (s : Scanner) (lexer : TSLexer) (valid_symbols : ValidSymbols) :
  valid_symbols REGEX_CONTENT = true ->
  valid_symbols INDENT = false ->
  valid_symbols STRING_CONTENT = false \/ delimiter_stack s = [] ->
  scan s lexer valid_symbols
  = match regex_content_loop (S (length (input lexer))) s false lexer with
    | None => None
    | Some (Return r) => Some r
    | Some (FallThrough lexer1) => layout_scan s lexer1 valid_symbols
    end.
Proof.
  intros Hv Hi Hs. unfold scan, content_scan, error_recovery_mode.
  rewrite Hv, Hi.
  assert (valid_symbols STRING_CONTENT
          && negb (Nat.eqb (length (delimiter_stack s)) 0) = false) as E.
  { destruct Hs as [-> | ->]; [reflexivity|]. simpl. apply andb_false_r. }
  rewrite !andb_false_r. cbn [negb andb orb]. rewrite andb_true_r, E.
  destruct (regex_content_loop _ _ _ _) as [[r|lexer1]|]; reflexivity.
Qed.

(** The layout scanner at the end of the input, with INDENT not requested. *)
Lemma layout_scan_end_of_input (s : Scanner) (lexer : TSLexer)
    (valid_symbols : ValidSymbols) :
  input lexer = [] ->
  valid_symbols INDENT = false ->
  layout_scan s lexer valid_symbols
  = Some (if (valid_symbols DEDENT
              || (negb (valid_symbols NEWLINE)
                  && negb (within_brackets valid_symbols)))
             && (0 <? previous_indent_length s)
          then (true, mkScanner 0 (delimiter_stack s),
                set_result_symbol (mark_end lexer) DEDENT)
          else if valid_symbols NEWLINE
          then (true, s, set_result_symbol (mark_end lexer) NEWLINE)
          else (false, s, mark_end lexer)).
Proof.
  intros Hin Hi. unfold layout_scan.
  rewrite input_mark_end, Hin. simpl length.
  assert (Hl : lookahead (mark_end lexer) = 0)
    by (unfold lookahead; rewrite input_mark_end, Hin; reflexivity).
  unfold layout_loop, layout_turn. rewrite Hl. cbn [Z.eqb].
  unfold layout_decide, indentation_token, error_recovery_mode.
  rewrite Hi. cbn [found_end_of_line indent_length first_comment_indent_length
                   andb negb layout_init].
  rewrite andb_false_r. cbn [negb]. rewrite andb_true_r.
  change (0 =? 0) with true. rewrite andb_true_r.
  destruct (valid_symbols DEDENT
            || negb (valid_symbols NEWLINE) && negb (within_brackets valid_symbols)).
  - cbn [andb].
    destruct (0 <? previous_indent_length s) eqn:Ep.
    + assert ((-1 <? previous_indent_length s) = true) as -> by lia.
      reflexivity.
    + cbn [andb]. destruct (valid_symbols NEWLINE); [reflexivity|].
      unfold string_start, regex_start. rewrite Hl. cbn.
      repeat break_if; try reflexivity;
        rewrite Hl in *; rewrite ?andb_false_r in *; discriminate.
  - cbn [andb]. destruct (valid_symbols NEWLINE); [reflexivity|].
    unfold string_start, regex_start. rewrite Hl. cbn.
    repeat break_if; try reflexivity;
      rewrite Hl in *; rewrite ?andb_false_r in *; discriminate.
Qed.

Lemma regex_content_loop_ignores_state (fuel : nat) :
  forall s s2 has_content lexer,
    regex_content_loop fuel s has_content lexer
    = with_state s (regex_content_loop fuel s2 has_content lexer).
Proof.
  induction fuel as [|fuel IH]; intros s s2 has_content lexer; [reflexivity|].
  rewrite !regex_content_loop_S.
  repeat break_if; try reflexivity. apply IH.
Qed.

(** C7, as the code has it: the regex-content scanner.  The call is one
    with REGEX_CONTENT requested and INDENT not, to which the string-content
    scanner does not apply; the input is a run [pre] of content followed by
    [tail].  On a backslash the call stops in front of it and returns
    whether [pre] is non-empty, with REGEX_CONTENT as the symbol.  On a
    slash it returns REGEX_CONTENT in front of the slash when there is
    content, and otherwise consumes the slash and returns REGEX_END.  On a
    newline after content it returns false.  At the end of the input the
    call goes on into the layout scanner, which commits DEDENT or NEWLINE
    when they apply and returns false otherwise.  The delimiter stack is
    handed back as it was in every case, and the loop does the same
    whatever state it is given. *)
Theorem regex_content_scanner (s : Scanner) (lexer : TSLexer)
    (valid_symbols : ValidSymbols) (pre tail : list Z) :
  valid_symbols REGEX_CONTENT = true ->
  valid_symbols INDENT = false ->
  valid_symbols STRING_CONTENT = false \/ delimiter_stack s = [] ->
  input lexer = pre ++ tail ->
  regex_run pre = true ->
  let here := (position lexer + length pre)%nat in
  (forall rest, tail = 92 :: rest ->
     scan s lexer valid_symbols
     = Some (negb (is_empty pre), s,
             mkLexer tail here (token_start lexer) here REGEX_CONTENT))
  /\ (forall rest, tail = 47 :: rest -> pre <> [] ->
      scan s lexer valid_symbols
      = Some (true, s,
              mkLexer tail here (token_start lexer) here REGEX_CONTENT))
  /\ (forall rest, tail = 47 :: rest -> pre = [] ->
      scan s lexer valid_symbols
      = Some (true, s,
              mkLexer rest (S here) (token_start lexer) (S here) REGEX_END))
  /\ (forall rest, tail = 10 :: rest -> pre <> [] ->
      scan s lexer valid_symbols
      = Some (false, s,
              mkLexer tail here (token_start lexer) (token_end lexer)
                      (result_symbol lexer)))
  /\ (tail = [] ->
      scan s lexer valid_symbols
      = Some (if (valid_symbols DEDENT
                  || (negb (valid_symbols NEWLINE)
                      && negb (within_brackets valid_symbols)))
                 && (0 <? previous_indent_length s)
              then (true, mkScanner 0 (delimiter_stack s),
                    mkLexer [] here (token_start lexer) here DEDENT)
              else if valid_symbols NEWLINE
              then (true, s, mkLexer [] here (token_start lexer) here NEWLINE)
              else (false, s,
                    mkLexer [] here (token_start lexer) here (result_symbol lexer))))
  /\ (forall s2 fuel has_content lexer2,
        regex_content_loop fuel s has_content lexer2
        = with_state s (regex_content_loop fuel s2 has_content lexer2)).
Proof.
  intros Hv Hi Hs Hin Hrun here.
  rewrite (regex_scanner_applies s lexer valid_symbols Hv Hi Hs).
  replace (S (length (input lexer)))
    with (length pre + S (length tail))%nat
    by (rewrite Hin, length_app; lia).
  rewrite (regex_content_loop_run pre _ s false lexer tail Hin Hrun).
  cbn [orb]. rewrite regex_content_loop_S.
  assert (Hne : pre <> [] -> negb (is_empty pre) = true)
    by (destruct pre; [contradiction|reflexivity]).
  split; [|split; [|split; [|split; [|split]]]].
  - intros rest ->. reflexivity.
  - intros rest -> Hpre. rewrite (Hne Hpre). reflexivity.
  - intros rest -> ->. cbn. unfold here. repeat f_equal; simpl; lia.
  - intros rest -> Hpre. rewrite (Hne Hpre). reflexivity.
  - intros ->. change (lookahead (advanced lexer (length pre) [])) with 0.
    cbn [Z.eqb].
    rewrite (layout_scan_end_of_input s (advanced lexer (length pre) [])
               valid_symbols eq_refl Hi).
    reflexivity.
  - intros s2 fuel has_content lexer2.
    apply regex_content_loop_ignores_state.
Qed.

Lemma regex_content_scanner_witness :
  scan (mkScanner 4 []) (lexer_at [97; 98; 99]) (requested [REGEX_CONTENT])
  = Some (true, mkScanner 0 [], mkLexer [] 3 0 3 DEDENT).
Proof.
  refine (proj1 (proj2 (proj2 (proj2 (proj2
            (regex_content_scanner (mkScanner 4 []) (lexer_at [97; 98; 99])
               (requested [REGEX_CONTENT]) [97; 98; 99] []
               eq_refl eq_refl _ eq_refl eq_refl))))) eq_refl).
  left; reflexivity.
Defined.

(** C7 fails at the end of the input: with REGEX_CONTENT and NEWLINE
    requested and the text abc up to the end of the input, no rule of the
    regex scanner fires, and the call returns true with NEWLINE instead of
    reporting no token. *)
Lemma regex_end_of_input_commits_newline :
  requested [REGEX_CONTENT; NEWLINE] REGEX_CONTENT = true
  /\ error_recovery_mode (requested [REGEX_CONTENT; NEWLINE]) = false
  /\ regex_run [97; 98; 99] = true
  /\ scan zero_state (lexer_at [97; 98; 99]) (requested [REGEX_CONTENT; NEWLINE])
     = Some (true, zero_state, mkLexer [] 3 0 3 NEWLINE)
  /\ ~ (exists s' lexer',
          scan zero_state (lexer_at [97; 98; 99]) (requested [REGEX_CONTENT; NEWLINE])
          = Some (false, s', lexer')).
Proof.
  repeat split; try (vm_compute; reflexivity).
  intros (s' & lexer' & H). vm_compute in H. discriminate.
Qed.

(** ** The layout scanner *)

Lemma layout_loop_S (fuel : nat) (lexer : TSLexer) (v : Layout) :
  layout_loop (S fuel) lexer v
  = match layout_turn lexer v with
    | None => None
    | Some (Continue lexer v) => layout_loop fuel lexer v
    | Some (Break lexer v) => Some (Measured lexer v)
    | Some (Fail lexer) => Some (Invalid lexer)
    end.
Proof. reflexivity. Qed.

Lemma layout_turn_continue_shorter (lexer : TSLexer) (v : Layout)
    (lexer' : TSLexer) (v' : Layout) :
  layout_turn lexer v = Some (Continue lexer' v') ->
  (length (input lexer') < length (input lexer))%nat.
Proof.
  intros H. destruct (layout_turn_total lexer v) as (t & Ht & Hdec).
  rewrite H in Ht. inv Ht. apply (Hdec lexer' v'). reflexivity.
Qed.

(** The loop started with enough turns left still has enough of them at
    every point it reaches. *)
Lemma layout_loop_reaches (lexer : TSLexer) (v : Layout) (lexer' : TSLexer) (v' : Layout) :
  layout_reaches lexer v lexer' v' ->
  forall fuel, (length (input lexer) < fuel)%nat ->
  exists fuel', (length (input lexer') < fuel')%nat
                /\ layout_loop fuel lexer v = layout_loop fuel' lexer' v'.
Proof.
  induction 1 as [lexer v|lexer v lexer1 v1 lexer2 v2 Hturn Hreach IH]; intros fuel Hfuel.
  - exists fuel; auto.
  - destruct fuel as [|fuel]; [lia|].
    rewrite layout_loop_S, Hturn.
    apply IH. apply layout_turn_continue_shorter in Hturn. lia.
Qed.

Lemma skip_cons (lexer : TSLexer) (c : Z) (rest : list Z) :
  input lexer = c :: rest -> skip lexer = skipped lexer 1 rest.
Proof.
  unfold skip, lexer_advance, skipped; intros ->. simpl.
  f_equal; lia.
Qed.

Lemma skipped_zero (lexer : TSLexer) : skipped lexer 0 (input lexer) = lexer.
Proof.
  destruct lexer; unfold skipped; simpl. f_equal. lia.
Qed.

Lemma skipped_skipped (lexer : TSLexer) (n m : nat) (l1 l2 : list Z) :
  m <> 0%nat ->
  skipped (skipped lexer n l1) m l2 = skipped lexer (n + m) l2.
Proof.
  intros Hm. unfold skipped; simpl.
  destruct (Nat.eqb_spec m 0); [contradiction|].
  destruct (Nat.eqb_spec (n + m) 0); [lia|].
  f_equal; lia.
Qed.

(** Falling out of the content scanners, [scan] is the layout scanner. *)
Lemma scan_layout (s : Scanner) (lexer : TSLexer) (valid_symbols : ValidSymbols)
    (lexer0 : TSLexer) :
  content_scan s lexer valid_symbols = Some (FallThrough lexer0) ->
  scan s lexer valid_symbols = layout_scan s lexer0 valid_symbols.
Proof. unfold scan; intros ->; reflexivity. Qed.

Lemma scan_measured (s : Scanner) (lexer : TSLexer) (valid_symbols : ValidSymbols)
    (lexer0 lexer1 : TSLexer) (v : Layout) :
  content_scan s lexer valid_symbols = Some (FallThrough lexer0) ->
  layout_loop (S (length (input lexer0))) (mark_end lexer0) layout_init
    = Some (Measured lexer1 v) ->
  scan s lexer valid_symbols = Some (layout_decide s valid_symbols lexer1 v).
Proof.
  intros Hc Hl. rewrite (scan_layout _ _ _ _ Hc).
  unfold layout_scan. rewrite input_mark_end, Hl. reflexivity.
Qed.

Lemma lookahead_skipped (lexer : TSLexer) (n : nat) (tail : list Z) :
  lookahead (skipped lexer n tail) = hd 0 tail.
Proof. destruct tail; reflexivity. Qed.

Lemma skip_skipped (lexer : TSLexer) (n : nat) (tail : list Z) :
  skip (skipped lexer n tail) = skipped lexer (S n) (tl tail)
  \/ (tail = [] /\ skip (skipped lexer n tail) = skipped lexer n tail).
Proof.
  destruct tail as [|c r].
  - right. split; reflexivity.
  - left. rewrite (skip_cons (skipped lexer n (c :: r)) c r eq_refl).
    rewrite skipped_skipped by lia. simpl tl. f_equal. lia.
Qed.

Lemma skip_skipped_cons (lexer : TSLexer) (n : nat) (tail : list Z) :
  hd 0 tail <> 0 ->
  skip (skipped lexer n tail) = skipped lexer (S n) (tl tail).
Proof.
  intros H. destruct (skip_skipped lexer n tail) as [E|[E _]]; [exact E|].
  subst tail. simpl in H. contradiction.
Qed.

(** The backslash case of the layout loop. *)
Lemma layout_turn_backslash (lexer : TSLexer) (v : Layout) (rest : list Z) :
  input lexer = 92 :: rest ->
  let after_cr := if hd 0 rest =? 13 then tl rest else rest in
  let n := if hd 0 rest =? 13 then 2%nat else 1%nat in
  layout_turn lexer v
  = if hd 0 after_cr =? 10
    then Some (Continue (skipped lexer (S n) (tl after_cr)) v)
    else Some (Fail (skipped lexer n after_cr)).
Proof.
  intros Hin after_cr n. unfold layout_turn.
  rewrite (lookahead_cons lexer 92 rest Hin).
  change (92 =? 10) with false. change (92 =? 32) with false.
  change (92 =? 13) with false. change (92 =? 9) with false.
  change (92 =? 35) with false. change (92 =? 92) with true.
  cbv iota.
  rewrite (skip_cons lexer 92 rest Hin).
  rewrite lookahead_skipped.
  subst after_cr n.
  destruct (hd 0 rest =? 13) eqn:Ecr.
  - rewrite skip_skipped_cons by lia.
    rewrite lookahead_skipped.
    destruct (hd 0 (tl rest) =? 10) eqn:Elf; [|reflexivity].
    rewrite skip_skipped_cons by lia. reflexivity.
  - rewrite lookahead_skipped.
    destruct (hd 0 rest =? 10) eqn:Elf; [|reflexivity].
    rewrite skip_skipped_cons by lia. reflexivity.
Qed.

(** C8: in the layout loop, a backslash, an optional carriage return and a
    newline are skipped and the loop goes on with its variables as they
    were; when what follows the backslash and the optional carriage return
    is not a newline, the call of [scan] returns false, with the state as
    it was. *)
Theorem line_continuation (s : Scanner) (lexer : TSLexer)
    (valid_symbols : ValidSymbols) (lexer0 lexer1 : TSLexer) (v1 : Layout)
    (rest : list Z) :
  content_scan s lexer valid_symbols = Some (FallThrough lexer0) ->
  layout_reaches (mark_end lexer0) layout_init lexer1 v1 ->
  input lexer1 = 92 :: rest ->
  let after_cr := if hd 0 rest =? 13 then tl rest else rest in
  let n := if hd 0 rest =? 13 then 2%nat else 1%nat in
  (hd 0 after_cr = 10 ->
   layout_turn lexer1 v1
   = Some (Continue (skipped lexer1 (S n) (tl after_cr)) v1))
  /\ (hd 0 after_cr <> 10 ->
      scan s lexer valid_symbols = Some (false, s, skipped lexer1 n after_cr)).
Proof.
  intros Hc Hreach Hin after_cr n.
  pose proof (layout_turn_backslash lexer1 v1 rest Hin) as Hturn.
  cbv zeta in Hturn. fold after_cr in Hturn. fold n in Hturn.
  split; intros Hlf.
  - rewrite Hturn. apply Z.eqb_eq in Hlf. rewrite Hlf. reflexivity.
  - apply Z.eqb_neq in Hlf. rewrite Hlf in Hturn.
    rewrite (scan_layout _ _ _ _ Hc). unfold layout_scan.
    destruct (layout_loop_reaches _ _ _ _ Hreach
                (S (length (input (mark_end lexer0))))) as (fuel' & Hfuel & ->);
      [lia|].
    destruct fuel' as [|fuel']; [lia|].
    rewrite layout_loop_S, Hturn. reflexivity.
Qed.

Lemma line_continuation_witness :
  scan (mkScanner 4 []) (lexer_at [32; 92; 120]) (requested [NEWLINE; DEDENT])
  = Some (false, mkScanner 4 [], mkLexer [120] 2 2 0 NEWLINE).
Proof.
  refine (proj2 (line_continuation (mkScanner 4 []) (lexer_at [32; 92; 120])
                   (requested [NEWLINE; DEDENT])
                   (lexer_at [32; 92; 120])
                   (mkLexer [92; 120] 1 1 0 NEWLINE) (mkLayout false 1 (-1))
                   [120] eq_refl _ eq_refl) _).
  - eapply reaches_turn; [reflexivity|apply reaches_here].
  - simpl. lia.
Defined.

(** *** What the layout loop measures *)

Lemma layout_turn_blank (lexer : TSLexer) (n : nat) (c : Z) (rest : list Z) (v : Layout) :
  is_blank c = true ->
  layout_turn (skipped lexer n (c :: rest)) v
  = Some (Continue (skipped lexer (S n) rest)
            (mkLayout (found_end_of_line v || (c =? 10))
                      (blank_step (indent_length v) c)
                      (first_comment_indent_length v))).
Proof.
  intros Hb. unfold layout_turn. rewrite lookahead_skipped. simpl hd.
  rewrite skip_skipped_cons by (simpl; unfold is_blank in Hb; lia).
  simpl tl. unfold blank_step, is_blank in *.
  destruct (c =? 10) eqn:E10.
  { apply Z.eqb_eq in E10; subst c. rewrite orb_true_r. reflexivity. }
  rewrite orb_false_r.
  destruct (c =? 32) eqn:E32; [destruct v; reflexivity|].
  destruct (c =? 13) eqn:E13.
  { apply Z.eqb_eq in E13; subst c. destruct v; reflexivity. }
  destruct (c =? 9) eqn:E9; [destruct v; reflexivity|].
  destruct (c =? 12) eqn:E12; [|discriminate].
  apply Z.eqb_eq in E12; subst c. destruct v; reflexivity.
Qed.

Lemma layout_loop_blanks (blanks : list Z) :
  forall fuel lexer n tail v,
    forallb is_blank blanks = true ->
    layout_loop (length blanks + fuel) (skipped lexer n (blanks ++ tail)) v
    = layout_loop fuel (skipped lexer (n + length blanks) tail)
        (mkLayout (found_end_of_line v || existsb (fun c => c =? 10) blanks)
                  (fold_left blank_step blanks (indent_length v))
                  (first_comment_indent_length v)).
Proof.
  induction blanks as [|c blanks IH]; intros fuel lexer n tail v Hb.
  - simpl. rewrite Nat.add_0_r, orb_false_r. destruct v; reflexivity.
  - simpl in Hb. apply andb_prop in Hb as [Hc Hb].
    simpl length. simpl Nat.add. rewrite layout_loop_S.
    simpl app. rewrite (layout_turn_blank lexer n c (blanks ++ tail) v Hc).
    rewrite (IH fuel lexer (S n) tail _ Hb).
    cbn [found_end_of_line indent_length first_comment_indent_length
         existsb fold_left].
    replace (S n + length blanks)%nat with (n + S (length blanks))%nat by lia.
    rewrite <- orb_assoc. reflexivity.
Qed.


Lemma layout_turn_token_char (lexer : TSLexer) (v : Layout) :
  is_token_char (lookahead lexer) = true ->
  layout_turn lexer v = Some (Break lexer v).
Proof.
  unfold is_token_char, is_blank, layout_turn. intros H.
  repeat (apply andb_prop in H as [H ?]).
  repeat match goal with
         | H : negb _ = true |- _ => apply negb_true_iff in H
         end.
  repeat match goal with
         | H : _ || _ = false |- _ => apply orb_false_elim in H as [H ?]
         end.
  repeat match goal with
         | H : (lookahead lexer =? _) = false |- _ => rewrite H; clear H
         end.
  reflexivity.
Qed.


Lemma layout_turn_end (lexer : TSLexer) (v : Layout) :
  lookahead lexer = 0 ->
  layout_turn lexer v
  = Some (Break lexer (mkLayout true 0 (first_comment_indent_length v))).
Proof. intros H. unfold layout_turn. rewrite H. reflexivity. Qed.

(** *** When the loop has seen the end of a line *)







(** *** The column of the first comment *)







Lemma layout_decide_indent (s : Scanner) (valid_symbols : ValidSymbols)
    (lexer : TSLexer) (v : Layout) :
  found_end_of_line v = true ->
  valid_symbols INDENT = true ->
  previous_indent_length s = 0 ->
  0 < indent_length v ->
  layout_decide s valid_symbols lexer v
  = (true, mkScanner (indent_length v mod 65536) (delimiter_stack s),
     set_result_symbol lexer INDENT).
Proof.
  intros Heol Hv Hp Hi. unfold layout_decide, indentation_token.
  rewrite Heol, Hv, Hp.
  assert ((0 <? indent_length v) = true) as -> by lia.
  reflexivity.
Qed.





(** *** Comments and the dedent *)








(** The same body with the comment at column 4: the call commits NEWLINE,
    not DEDENT. *)
Example comment_at_baseline_blocks_dedent :
  scan (mkScanner 4 []) (lexer_at [10; 32; 32; 32; 32; 35; 99; 10; 120])
       (requested [DEDENT; NEWLINE])
  = Some (true, mkScanner 4 [], mkLexer [120] 8 8 0 NEWLINE).
Proof. reflexivity. Qed.

(** The newline that ends a comment does not count as the end of a line
    for the layout loop: with nothing but a comment line in front of the
    token, no indentation token is decided. *)
Example comment_newline_is_no_line_boundary :
  layout_loop 5 (mark_end (lexer_at [35; 99; 10; 120])) layout_init
  = Some (Measured (mkLexer [120] 3 3 0 NEWLINE) (mkLayout false 0 0))
  /\ scan (mkScanner 4 []) (lexer_at [35; 99; 10; 120]) (requested [DEDENT])
     = Some (false, mkScanner 4 [], mkLexer [120] 3 3 0 NEWLINE).
Proof. split; reflexivity. Qed.

(** ** Serialization *)

Lemma memcpy_to_before (data : list Delimiter) :
  forall buffer i n j, (j < i)%nat -> memcpy_to buffer i data n j = buffer j.
Proof.
  induction data as [|d data IH]; intros buffer i n j Hj.
  - destruct n; reflexivity.
  - destruct n as [|n]; [reflexivity|].
    simpl. rewrite IH by lia. unfold store_byte.
    destruct (Nat.eqb_spec j i); [lia|reflexivity].
Qed.

Lemma memcpy_from_memcpy_to (data : list Delimiter) :
  forall buffer i,
    memcpy_from (memcpy_to buffer i data (length data)) i (length data) = data.
Proof.
  unfold memcpy_from.
  induction data as [|d data IH]; intros buffer i; [reflexivity|].
  simpl. f_equal.
  - rewrite memcpy_to_before by lia. unfold store_byte.
    rewrite Nat.eqb_refl. destruct d; reflexivity.
  - apply IH.
Qed.

Lemma memcpy_from_ext (b1 b2 : Buffer) (i n : nat) :
  (forall j, (i <= j < i + n)%nat -> b1 j = b2 j) ->
  memcpy_from b1 i n = memcpy_from b2 i n.
Proof.
  intros H. unfold memcpy_from. apply map_ext_in.
  intros j Hj. apply in_seq in Hj. rewrite H by lia. reflexivity.
Qed.

(** What [serialize] writes when the stack fits the count byte. *)
Lemma serialize_small (s : Scanner) (buffer : Buffer) :
  (length (delimiter_stack s) <= 255)%nat ->
  let n := length (delimiter_stack s) in
  serialize s buffer
  = (store (memcpy_to (store buffer 0 (Z.of_nat n)) 1 (delimiter_stack s) n)
           (S n) (previous_indent_length s),
     S (S n)).
Proof.
  intros Hlen n. unfold serialize, UINT8_MAX.
  destruct (Nat.ltb_spec 255 (length (delimiter_stack s))); [lia|].
  fold n. destruct (Nat.ltb_spec 0 n) as [Hn|Hn].
  - reflexivity.
  - assert (n = 0%nat) as E by lia. rewrite E.
    destruct (delimiter_stack s); reflexivity.
Qed.

(** The length [serialize] returns, and the count byte it writes. *)
Lemma serialize_shape (s : Scanner) (buffer : Buffer) :
  let n := Nat.min 255 (length (delimiter_stack s)) in
  snd (serialize s buffer) = S (S n)
  /\ fst (serialize s buffer) 0%nat = Z.of_nat n.
Proof.
  intros n. unfold serialize, UINT8_MAX.
  assert (Hn : (if Nat.ltb 255 (length (delimiter_stack s)) then 255%nat
                else length (delimiter_stack s)) = n).
  { unfold n. destruct (Nat.ltb_spec 255 (length (delimiter_stack s))); lia. }
  rewrite Hn. split; [reflexivity|].
  cbn [fst]. unfold store at 1. unfold store_byte at 1.
  simpl Nat.add. cbn [Nat.eqb].
  assert (Hcount : to_uint8 (Z.of_nat n) = Z.of_nat n).
  { unfold to_uint8. apply Z.mod_small. unfold n. lia. }
  destruct (Nat.ltb 0 n).
  - rewrite memcpy_to_before by lia. unfold store, store_byte. simpl. exact Hcount.
  - unfold store, store_byte. simpl. exact Hcount.
Qed.

Lemma scan_baseline_range (s : Scanner) (lexer : TSLexer) (valid_symbols : ValidSymbols)
    (flag : bool) (s' : Scanner) (lexer' : TSLexer) :
  scan s lexer valid_symbols = Some (flag, s', lexer') ->
  0 <= previous_indent_length s < 65536 ->
  0 <= previous_indent_length s' < 65536.
Proof.
  intros H R. apply scan_cases in H as [(l & H)|[(f & l & H)|(v & H)]].
  - inv H. exact R.
  - inv H. exact R.
  - inversion H; subst; simpl; auto using to_uint16_range.
Qed.

Lemma reachable_baseline_range (s : Scanner) :
  reachable s -> 0 <= previous_indent_length s < 65536.
Proof.
  induction 1 as [|s lexer valid_symbols flag s' lexer' _ IH Hscan].
  - simpl. lia.
  - eapply scan_baseline_range; eassumption.
Qed.

(** What [deserialize] reads. *)
Lemma deserialize_reads (char_is_signed : bool) (buffer : Buffer) (length : nat)
    (s : Scanner) :
  snd (deserialize char_is_signed buffer length s)
  = if Nat.eqb length 0 then []
    else seq 0 (Z.to_nat (to_uint8 (buffer 0%nat)) + 2).
Proof.
  unfold deserialize.
  destruct length as [|length]; [reflexivity|].
  change (Nat.ltb 0 (S length)) with true. cbv iota.
  change (Nat.eqb (S length) 0) with false. cbv iota.
  destruct (Z.to_nat (to_uint8 (buffer 0%nat))) as [|n]; [reflexivity|].
  change (Nat.ltb 0 (S n)) with true. cbv iota. cbn [snd].
  replace (S n + 2)%nat with (S (S (S n))) by lia.
  rewrite (seq_S (S (S n)) 0). rewrite <- cons_seq.
  cbn [app Nat.add]. reflexivity.
Qed.

(** What [deserialize] makes of a non-empty input. *)
Lemma deserialize_state (char_is_signed : bool) (buffer : Buffer) (length : nat)
    (s : Scanner) :
  length <> 0%nat ->
  let n := Z.to_nat (to_uint8 (buffer 0%nat)) in
  fst (deserialize char_is_signed buffer length s)
  = mkScanner (char_to_uint16 char_is_signed (buffer (S n)))
              (memcpy_from buffer 1 n).
Proof.
  intros Hlen n. unfold deserialize.
  destruct length as [|length]; [contradiction|].
  change (Nat.ltb 0 (S length)) with true. cbv iota.
  fold n. destruct n as [|n]; reflexivity.
Qed.

(** C1, as the code has it: for a state that a sequence of [scan] calls
    reaches from the zero state, whose stack has at most 255 delimiters and
    whose baseline is below 128 (below 256 where [char] is unsigned),
    deserializing what [serialize] wrote gives the state back, stack and
    baseline, whatever the state deserialized into. *)
Theorem serialize_round_trip (char_is_signed : bool) (s : Scanner)
    (buffer : Buffer) (s0 : Scanner) :
  reachable s ->
  (length (delimiter_stack s) <= 255)%nat ->
  previous_indent_length s < (if char_is_signed then 128 else 256) ->
  fst (deserialize char_is_signed (fst (serialize s buffer))
                   (snd (serialize s buffer)) s0)
  = s.
Proof.
  intros Hreach Hlen Hprev.
  pose proof (reachable_baseline_range s Hreach) as Hrange.
  destruct (serialize_shape s buffer) as [Hsnd Hcount].
  rewrite Nat.min_r in Hsnd, Hcount by lia.
  rewrite deserialize_state by (rewrite Hsnd; discriminate).
  rewrite Hcount.
  assert (Hn : Z.to_nat (to_uint8 (Z.of_nat (length (delimiter_stack s))))
               = length (delimiter_stack s)).
  { unfold to_uint8. rewrite Z.mod_small by lia. apply Nat2Z.id. }
  rewrite Hn. rewrite serialize_small by exact Hlen. cbn [fst].
  set (n := length (delimiter_stack s)).
  assert (Hlast : store (memcpy_to (store buffer 0 (Z.of_nat n)) 1
                           (delimiter_stack s) n)
                        (S n) (previous_indent_length s) (S n)
                  = previous_indent_length s).
  { unfold store at 1. unfold store_byte at 1. rewrite Nat.eqb_refl.
    unfold to_uint8. apply Z.mod_small.
    destruct char_is_signed; lia. }
  rewrite Hlast.
  assert (Hback : char_to_uint16 char_is_signed (previous_indent_length s)
                  = previous_indent_length s).
  { unfold char_to_uint16, to_uint16.
    destruct char_is_signed; simpl.
    - destruct (128 <=? previous_indent_length s) eqn:E; [lia|].
      apply Z.mod_small; lia.
    - apply Z.mod_small; lia. }
  rewrite Hback.
  rewrite (memcpy_from_ext _
             (memcpy_to (store buffer 0 (Z.of_nat n)) 1 (delimiter_stack s) n)).
  - unfold n. rewrite memcpy_from_memcpy_to. destruct s; reflexivity.
  - intros j Hj. unfold store at 1. unfold store_byte at 1.
    destruct (Nat.eqb_spec j (S n)); [lia|reflexivity].
Qed.

Lemma serialize_round_trip_witness :
  fst (deserialize true
         (fst (serialize (mkScanner 10 [mkDelimiter 2]) (fun _ => 0)))
         (snd (serialize (mkScanner 10 [mkDelimiter 2]) (fun _ => 0)))
         zero_state)
  = mkScanner 10 [mkDelimiter 2].
Proof.
  apply (serialize_round_trip true (mkScanner 10 [mkDelimiter 2])
           (fun _ => 0) zero_state).
  - apply (reachable_scan (mkScanner 10 []) (lexer_at [34])
             (requested [STRING_START]) true _ (mkLexer [] 1 0 1 STRING_START)).
    + apply (reachable_scan zero_state (lexer_at [10; 9; 32; 32; 120])
               (requested [INDENT]) true _ (mkLexer [120] 4 4 0 INDENT)).
      * apply reachable_zero.
      * reflexivity.
    + reflexivity.
  - simpl. lia.
  - simpl. lia.
Defined.

(** C1 fails for a baseline of 256: a newline and 32 tabs with INDENT
    requested take the zero state to the baseline 256, which [serialize]
    writes as the byte 0, so that [deserialize] gives the baseline 0,
    whether [char] is signed or not. *)
Lemma round_trip_loses_baseline :
  scan zero_state (lexer_at (10 :: repeat 9 32 ++ [120])) (requested [INDENT])
  = Some (true, mkScanner 256 [], mkLexer [120] 33 33 0 INDENT)
  /\ reachable (mkScanner 256 [])
  /\ fst (deserialize true
            (fst (serialize (mkScanner 256 []) (fun _ => 0)))
            (snd (serialize (mkScanner 256 []) (fun _ => 0)))
            (mkScanner 256 []))
     = mkScanner 0 []
  /\ fst (deserialize false
            (fst (serialize (mkScanner 256 []) (fun _ => 0)))
            (snd (serialize (mkScanner 256 []) (fun _ => 0)))
            (mkScanner 256 []))
     = mkScanner 0 []
  /\ mkScanner 0 [] <> mkScanner 256 [].
Proof.
  assert (H : scan zero_state (lexer_at (10 :: repeat 9 32 ++ [120]))
                   (requested [INDENT])
              = Some (true, mkScanner 256 [], mkLexer [120] 33 33 0 INDENT))
    by (vm_compute; reflexivity).
  split; [exact H|]. split.
  - eapply reachable_scan; [apply reachable_zero|exact H].
  - repeat split; try (vm_compute; reflexivity). discriminate.
Qed.

(** C2 at work: [deserialize] with an empty input clears the delimiter
    stack and reads nothing, but leaves the baseline as it was; from the
    baseline 4 it does not give the zero state. *)
Theorem deserialize_empty_input :
  (forall char_is_signed buffer s,
      deserialize char_is_signed buffer 0 s
      = (mkScanner (previous_indent_length s) [], []))
  /\ fst (deserialize true (fun _ => 0) 0 (mkScanner 4 [mkDelimiter 2]))
     = mkScanner 4 []
  /\ mkScanner 4 [] <> zero_state.
Proof.
  split; [reflexivity|]. split; [reflexivity|discriminate].
Qed.

(** C3, as the code has it: with length 0 [deserialize] reads nothing;
    otherwise it reads the count byte at index 0, then as many bytes as the
    count says, then one more byte, whatever the supplied length.  So its
    reads stay below the supplied length exactly when the length is 0 or at
    least the count plus 2, which is so for what [serialize] wrote. *)
Theorem deserialize_reads_bounds (char_is_signed : bool) (buffer : Buffer)
    (length : nat) (s : Scanner) :
  let reads := snd (deserialize char_is_signed buffer length s) in
  let n := Z.to_nat (to_uint8 (buffer 0%nat)) in
  reads = (if Nat.eqb length 0 then [] else seq 0 (n + 2))
  /\ (Forall (fun i => (i < length)%nat) reads
      <-> (length = 0%nat \/ (n + 2 <= length)%nat))
  /\ (forall s1 buffer1,
        Forall (fun i => (i < snd (serialize s1 buffer1))%nat)
               (snd (deserialize char_is_signed (fst (serialize s1 buffer1))
                                 (snd (serialize s1 buffer1)) s))).
Proof.
  intros reads n.
  assert (Hreads : reads = (if Nat.eqb length 0 then [] else seq 0 (n + 2)))
    by apply deserialize_reads.
  split; [exact Hreads|]. split.
  - rewrite Hreads. destruct length as [|length]; simpl Nat.eqb.
    + split; [auto|constructor].
    + rewrite Forall_forall. split.
      * intros H. right.
        assert (Hin : In (n + 1)%nat (seq 0 (n + 2))) by (apply in_seq; lia).
        apply H in Hin. lia.
      * intros [H|H] i Hi; [discriminate|]. apply in_seq in Hi. lia.
  - intros s1 buffer1. rewrite deserialize_reads.
    destruct (serialize_shape s1 buffer1) as [Hsnd Hcount].
    rewrite Hsnd, Hcount. simpl Nat.eqb.
    rewrite Forall_forall. intros i Hi. apply in_seq in Hi.
    unfold to_uint8 in Hi. rewrite Z.mod_small in Hi by lia.
    rewrite Nat2Z.id in Hi. lia.
Qed.

(** C3 fails on a truncated input: of the three bytes [serialize] wrote for
    a stack of one delimiter only the first is supplied, and [deserialize]
    still reads the bytes at the indices 1 and 2. *)
Lemma deserialize_reads_past_length :
  snd (serialize (mkScanner 4 [mkDelimiter 2]) (fun _ => 0)) = 3%nat
  /\ snd (deserialize true
            (fst (serialize (mkScanner 4 [mkDelimiter 2]) (fun _ => 0)))
            1 zero_state)
     = [0; 1; 2]%nat
  /\ ~ Forall (fun i => (i < 1)%nat)
         (snd (deserialize true
                 (fst (serialize (mkScanner 4 [mkDelimiter 2]) (fun _ => 0)))
                 1 zero_state)).
Proof.
  split; [reflexivity|]. split; [reflexivity|].
  intros H. rewrite Forall_forall in H.
  specialize (H 2%nat). simpl in H.
  assert (2 < 1)%nat by (apply H; auto). lia.
Qed.

(** * Further properties of the scanner *)

(** ** The decision after the layout loop, case by case *)

Lemma layout_decide_eq (s : Scanner) (valid_symbols : ValidSymbols)
    (lexer : TSLexer) (v : Layout) :
  layout_decide s valid_symbols lexer v
  = if found_end_of_line v && indent_due s valid_symbols v then
      (true, set_previous_indent_length s (indent_length v),
       set_result_symbol lexer INDENT)
    else if found_end_of_line v && dedent_due s valid_symbols v then
      (true, set_previous_indent_length s (indent_length v),
       set_result_symbol lexer DEDENT)
    else if found_end_of_line v && newline_due valid_symbols then
      (true, s, set_result_symbol lexer NEWLINE)
    else if (first_comment_indent_length v =? -1)
            && valid_symbols STRING_START && is_quote (lookahead lexer) then
      (true, push_back s (mkDelimiter (quote_flag (lookahead lexer))),
       set_result_symbol (mark_end (advance lexer)) STRING_START)
    else if (first_comment_indent_length v =? -1)
            && valid_symbols REGEX_START && (lookahead lexer =? 47) then
      (true, s, set_result_symbol (mark_end (advance lexer)) REGEX_START)
    else (false, s, lexer).
Proof.
  unfold layout_decide, indentation_token, indent_due, dedent_due, newline_due.
  assert (Hopen :
    match string_start s valid_symbols lexer v with
    | Return r => r
    | FallThrough lexer0 => regex_start s valid_symbols lexer0 v
    end
    = if (first_comment_indent_length v =? -1)
         && valid_symbols STRING_START && is_quote (lookahead lexer) then
        (true, push_back s (mkDelimiter (quote_flag (lookahead lexer))),
         set_result_symbol (mark_end (advance lexer)) STRING_START)
      else if (first_comment_indent_length v =? -1)
              && valid_symbols REGEX_START && (lookahead lexer =? 47) then
        (true, s, set_result_symbol (mark_end (advance lexer)) REGEX_START)
      else (false, s, lexer)).
  { unfold string_start, regex_start, is_quote, quote_flag.
    destruct (first_comment_indent_length v =? -1); [|reflexivity].
    destruct (valid_symbols STRING_START); cbn [andb]; [|reflexivity].
    destruct (lookahead lexer =? 96) eqn:E1.
    { apply Z.eqb_eq in E1. rewrite E1. reflexivity. }
    destruct (lookahead lexer =? 39) eqn:E2.
    { apply Z.eqb_eq in E2. rewrite E2. reflexivity. }
    destruct (lookahead lexer =? 34) eqn:E3.
    { apply Z.eqb_eq in E3. rewrite E3. reflexivity. }
    reflexivity. }
  destruct (found_end_of_line v); cbn [andb]; [|exact Hopen].
  repeat (break_if; [reflexivity|]). exact Hopen.
Qed.

Lemma string_content_loop_committed (valid_symbols : ValidSymbols) (fuel : nat) :
  forall s end_char has_content lexer s' lexer',
    valid_symbols STRING_CONTENT = true ->
    delimiter_stack s <> [] ->
    error_recovery_mode valid_symbols = false ->
    string_content_loop fuel s end_char has_content lexer
      = Some (Return (true, s', lexer')) ->
    committed s valid_symbols s' lexer'.
Proof.
  induction fuel as [|fuel IH];
    intros s end_char has_content lexer s' lexer' Hv Hs He H; [discriminate|].
  rewrite string_content_loop_S in H.
  repeat break_if; try discriminate;
    try (inv H; first [ apply committed_string_content; auto; fail
                      | apply committed_string_end; auto; fail ]).
  eapply IH; eassumption.
Qed.

Lemma regex_content_loop_committed (valid_symbols : ValidSymbols) (fuel : nat) :
  forall s has_content lexer s' lexer',
    valid_symbols REGEX_CONTENT = true ->
    error_recovery_mode valid_symbols = false ->
    regex_content_loop fuel s has_content lexer
      = Some (Return (true, s', lexer')) ->
    committed s valid_symbols s' lexer'.
Proof.
  induction fuel as [|fuel IH];
    intros s has_content lexer s' lexer' Hv He H; [discriminate|].
  rewrite regex_content_loop_S in H.
  repeat break_if; try discriminate;
    try (inv H; first [ apply committed_regex_content; auto; fail
                      | apply committed_regex_end; auto; fail ]).
  eapply IH; eassumption.
Qed.

Lemma content_scan_committed (s : Scanner) (lexer : TSLexer)
    (valid_symbols : ValidSymbols) (s' : Scanner) (lexer' : TSLexer) :
  content_scan s lexer valid_symbols = Some (Return (true, s', lexer')) ->
  committed s valid_symbols s' lexer'.
Proof.
  unfold content_scan. intros H.
  assert (Hregex : forall lexer1,
    (if valid_symbols REGEX_CONTENT && negb (error_recovery_mode valid_symbols)
     then regex_content_loop (S (length (input lexer1))) s false lexer1
     else Some (FallThrough lexer1)) = Some (Return (true, s', lexer')) ->
    committed s valid_symbols s' lexer').
  { intros lexer1 Hr.
    destruct (valid_symbols REGEX_CONTENT) eqn:Ev; [|discriminate].
    destruct (error_recovery_mode valid_symbols) eqn:Ee; [discriminate|].
    cbn [andb negb] in Hr.
    eapply regex_content_loop_committed; eassumption. }
  destruct (valid_symbols STRING_CONTENT) eqn:Ev; cbn [andb] in H;
    [|apply (Hregex lexer); exact H].
  destruct (Nat.eqb (length (delimiter_stack s)) 0) eqn:El; cbn [andb negb] in H;
    [apply (Hregex lexer); exact H|].
  destruct (error_recovery_mode valid_symbols) eqn:Ee; cbn [negb] in H.
  { rewrite andb_false_r in H. discriminate. }
  assert (Hs : delimiter_stack s <> [])
    by (intros E; rewrite E in El; discriminate).
  destruct (string_content_loop _ s _ false lexer) as [[r|lexer1]|] eqn:E;
    try discriminate.
  - inv H. eapply string_content_loop_committed; eassumption.
  - apply (Hregex lexer1). exact H.
Qed.

Lemma layout_decide_committed (s : Scanner) (valid_symbols : ValidSymbols)
    (lexer : TSLexer) (v : Layout) (s' : Scanner) (lexer' : TSLexer) :
  layout_decide s valid_symbols lexer v = (true, s', lexer') ->
  committed s valid_symbols s' lexer'.
Proof.
  rewrite layout_decide_eq. intros H.
  repeat break_if; try discriminate; inv H;
    repeat match goal with
           | E : _ && _ = true |- _ => apply andb_prop in E as [? ?]
           end.
  - eapply committed_indent; eauto.
  - eapply committed_dedent; eauto.
  - apply committed_newline; auto.
  - apply committed_string_start; auto.
  - apply committed_regex_start; auto.
Qed.

(** Every call that returns true ends in one of these ways. *)
Lemma scan_committed (s : Scanner) (lexer : TSLexer) (valid_symbols : ValidSymbols)
    (s' : Scanner) (lexer' : TSLexer) :
  scan s lexer valid_symbols = Some (true, s', lexer') ->
  committed s valid_symbols s' lexer'.
Proof.
  unfold scan. intros H.
  destruct (content_scan s lexer valid_symbols) as [[r|lexer0]|] eqn:Ec;
    try discriminate.
  - inv H. apply content_scan_committed in Ec. exact Ec.
  - unfold layout_scan in H.
    destruct (layout_loop _ _ _) as [[lexer1 v|lexer1]|]; try discriminate.
    inv H. eapply layout_decide_committed.
    match goal with E : layout_decide _ _ _ _ = _ |- _ => exact E end.
Qed.

Lemma quote_flag_cases (q : Z) :
  is_quote q = true ->
  (q = 39 /\ quote_flag q = 1) \/ (q = 34 /\ quote_flag q = 2)
  \/ (q = 96 /\ quote_flag q = 4).
Proof.
  unfold is_quote, quote_flag. intros H.
  destruct (q =? 39) eqn:E1; [apply Z.eqb_eq in E1; auto|].
  destruct (q =? 34) eqn:E2; [apply Z.eqb_eq in E2; auto|].
  destruct (q =? 96) eqn:E3; [apply Z.eqb_eq in E3; auto 6|].
  discriminate.
Qed.

Lemma end_character_quote_flag (q : Z) :
  is_quote q = true -> end_character (mkDelimiter (quote_flag q)) = q.
Proof.
  intros H. destruct (quote_flag_cases q H) as [[-> E]|[[-> E]|[-> E]]];
    reflexivity.
Qed.

Lemma indent_due_requested (s : Scanner) (valid_symbols : ValidSymbols) (v : Layout) :
  indent_due s valid_symbols v = true -> valid_symbols INDENT = true.
Proof.
  unfold indent_due. destruct (valid_symbols INDENT); [reflexivity|discriminate].
Qed.

Lemma dedent_due_requested (s : Scanner) (valid_symbols : ValidSymbols) (v : Layout) :
  dedent_due s valid_symbols v = true ->
  valid_symbols DEDENT = true
  \/ (valid_symbols NEWLINE = false /\ within_brackets valid_symbols = false).
Proof.
  unfold dedent_due.
  destruct (valid_symbols DEDENT); [auto|].
  destruct (valid_symbols NEWLINE); [discriminate|].
  destruct (within_brackets valid_symbols); [discriminate|auto].
Qed.

Lemma newline_due_requested (valid_symbols : ValidSymbols) :
  newline_due valid_symbols = true -> valid_symbols NEWLINE = true.
Proof.
  unfold newline_due. destruct (valid_symbols NEWLINE); [reflexivity|discriminate].
Qed.

(** X1: a call of [scan] that returns true has set the result symbol to one
    of the nine kinds of the scanner, never to COMMENT or a closing bracket.
    The kind is one the caller requested, with three exceptions: STRING_END
    is committed on the strength of STRING_CONTENT, REGEX_END on the
    strength of REGEX_CONTENT, and DEDENT also when neither NEWLINE nor a
    closing bracket is requested. *)
Theorem committed_kind_requested (s : Scanner) (lexer : TSLexer)
    (valid_symbols : ValidSymbols) (s' : Scanner) (lexer' : TSLexer) :
  scan s lexer valid_symbols = Some (true, s', lexer') ->
  is_scanner_token (result_symbol lexer') = true
  /\ (valid_symbols (result_symbol lexer') = true
      \/ (result_symbol lexer' = STRING_END
          /\ valid_symbols STRING_CONTENT = true)
      \/ (result_symbol lexer' = REGEX_END
          /\ valid_symbols REGEX_CONTENT = true)
      \/ (result_symbol lexer' = DEDENT
          /\ valid_symbols NEWLINE = false
          /\ within_brackets valid_symbols = false)).
Proof.
  intros H. apply scan_committed in H.
  inversion H; subst;
    match goal with E : result_symbol lexer' = _ |- _ => rewrite E end;
    (split; [reflexivity|]); auto.
  - left. eapply indent_due_requested; eassumption.
  - match goal with E : dedent_due _ _ _ = true |- _ =>
      apply dedent_due_requested in E as [E|[E1 E2]] end; auto 6.
  - left. apply newline_due_requested; assumption.
Qed.

Lemma committed_kind_requested_witness :
  is_scanner_token STRING_END = true
  /\ (requested [STRING_CONTENT] STRING_END = true
      \/ (STRING_END = STRING_END
          /\ requested [STRING_CONTENT] STRING_CONTENT = true)
      \/ (STRING_END = REGEX_END
          /\ requested [STRING_CONTENT] REGEX_CONTENT = true)
      \/ (STRING_END = DEDENT
          /\ requested [STRING_CONTENT] NEWLINE = false
          /\ within_brackets (requested [STRING_CONTENT]) = false)).
Proof.
  apply (committed_kind_requested (mkScanner 0 [mkDelimiter 2]) (lexer_at [34; 120])
           (requested [STRING_CONTENT]) (mkScanner 0 [])
           (mkLexer [120] 1 0 1 STRING_END)).
  reflexivity.
Defined.

(** X2: one call of [scan] leaves the delimiter stack as it is, or pushes
    one delimiter, or pops one.  It pushes only when it commits
    STRING_START, and the delimiter pushed has one of the three quotes as
    its end character; it pops only when it commits STRING_END, and what it
    pops is the top of the stack. *)
Theorem scan_stack_change (s : Scanner) (lexer : TSLexer)
    (valid_symbols : ValidSymbols) (flag : bool) (s' : Scanner) (lexer' : TSLexer) :
  scan s lexer valid_symbols = Some (flag, s', lexer') ->
  delimiter_stack s' = delimiter_stack s
  \/ (flag = true /\ result_symbol lexer' = STRING_START
      /\ exists d, delimiter_stack s' = delimiter_stack s ++ [d]
                   /\ is_quote (end_character d) = true)
  \/ (flag = true /\ result_symbol lexer' = STRING_END
      /\ delimiter_stack s = delimiter_stack s' ++ [back s]).
Proof.
  intros H. destruct flag.
  - apply scan_committed in H. inversion H; subst; auto.
    + right; right. repeat split; auto.
      unfold pop_back, back; simpl. apply app_removelast_last. assumption.
    + right; left. repeat split; auto.
      eexists; split; [reflexivity|].
      rewrite end_character_quote_flag by assumption. assumption.
  - left. apply scan_cases in H as [(l & H)|[(f & l & H)|(v & H)]].
    + discriminate.
    + inv H. reflexivity.
    + inversion H; subst; reflexivity.
Qed.

Lemma scan_stack_change_witness :
  delimiter_stack (mkScanner 0 [mkDelimiter 2; mkDelimiter 1])
  = delimiter_stack (mkScanner 0 [mkDelimiter 2])
  \/ (true = true /\ result_symbol (mkLexer [120] 1 0 1 STRING_START) = STRING_START
      /\ exists d, delimiter_stack (mkScanner 0 [mkDelimiter 2; mkDelimiter 1])
                   = delimiter_stack (mkScanner 0 [mkDelimiter 2]) ++ [d]
                   /\ is_quote (end_character d) = true)
  \/ (true = true /\ result_symbol (mkLexer [120] 1 0 1 STRING_START) = STRING_END
      /\ delimiter_stack (mkScanner 0 [mkDelimiter 2])
         = delimiter_stack (mkScanner 0 [mkDelimiter 2; mkDelimiter 1])
           ++ [back (mkScanner 0 [mkDelimiter 2])]).
Proof.
  apply (scan_stack_change (mkScanner 0 [mkDelimiter 2]) (lexer_at [39; 120])
           (requested [STRING_START]) true
           (mkScanner 0 [mkDelimiter 2; mkDelimiter 1])
           (mkLexer [120] 1 0 1 STRING_START)).
  reflexivity.
Defined.

(** ** Error recovery *)

Lemma content_scan_recovery (s : Scanner) (lexer : TSLexer)
    (valid_symbols : ValidSymbols) :
  error_recovery_mode valid_symbols = true ->
  content_scan s lexer valid_symbols = Some (FallThrough lexer).
Proof.
  intros He. unfold content_scan. rewrite He. cbn [negb].
  rewrite !andb_false_r. reflexivity.
Qed.

(** X3: when STRING_CONTENT or REGEX_CONTENT is requested together with
    INDENT, neither content scanner runs: the call is the layout scanner
    from the first character on.  Such a call commits INDENT, DEDENT,
    STRING_START or REGEX_START or nothing: never content, never the end of
    a literal, never NEWLINE; and it pops no delimiter. *)
Theorem recovery_defers_to_layout (s : Scanner) (lexer : TSLexer)
    (valid_symbols : ValidSymbols) :
  error_recovery_mode valid_symbols = true ->
  scan s lexer valid_symbols = layout_scan s lexer valid_symbols
  /\ (forall s' lexer',
        scan s lexer valid_symbols = Some (true, s', lexer') ->
        (result_symbol lexer' = INDENT \/ result_symbol lexer' = DEDENT
         \/ result_symbol lexer' = STRING_START
         \/ result_symbol lexer' = REGEX_START)
        /\ (delimiter_stack s' = delimiter_stack s
            \/ exists d, delimiter_stack s' = delimiter_stack s ++ [d])).
Proof.
  intros He. split.
  - apply scan_layout. apply content_scan_recovery. exact He.
  - intros s' lexer' H. apply scan_committed in H.
    inversion H; subst; try congruence; auto 6.
    + unfold newline_due in *. rewrite He in *.
      rewrite andb_false_r in *. discriminate.
    + split; [auto|]. right. eexists. reflexivity.
Qed.

Lemma recovery_defers_to_layout_witness :
  scan (mkScanner 0 [mkDelimiter 2]) (lexer_at [97; 98; 34])
       (requested [STRING_CONTENT; INDENT])
  = layout_scan (mkScanner 0 [mkDelimiter 2]) (lexer_at [97; 98; 34])
                (requested [STRING_CONTENT; INDENT]).
Proof.
  apply (proj1 (recovery_defers_to_layout (mkScanner 0 [mkDelimiter 2])
                  (lexer_at [97; 98; 34])
                  (requested [STRING_CONTENT; INDENT]) eq_refl)).
Defined.

(** ** The states the scanner reaches *)

Lemma Forall_removelast (A : Type) (P : A -> Prop) (l : list A) :
  Forall P l -> Forall P (removelast l).
Proof.
  induction 1 as [|a l Ha Hl IH]; [constructor|].
  simpl. destruct l; [constructor|]. constructor; assumption.
Qed.

(** X4: in every state that a sequence of [scan] calls reaches from the
    zero state, the baseline is a 16-bit value and every delimiter on the
    stack carries exactly one of the three flags, so that its end character
    is one of the three quotes and never 0. *)
Theorem reachable_well_formed (s : Scanner) :
  reachable s ->
  0 <= previous_indent_length s < 65536
  /\ Forall (fun d => flags d = 1 \/ flags d = 2 \/ flags d = 4)
            (delimiter_stack s)
  /\ Forall (fun d => is_quote (end_character d) = true) (delimiter_stack s).
Proof.
  intros H. split; [apply reachable_baseline_range; exact H|].
  assert (Hflags : Forall (fun d => flags d = 1 \/ flags d = 2 \/ flags d = 4)
                          (delimiter_stack s)).
  { induction H as [|s lexer valid_symbols flag s' lexer' _ IH Hscan].
    - constructor.
    - destruct flag.
      + apply scan_committed in Hscan. inversion Hscan; subst; auto.
        * apply Forall_removelast. exact IH.
        * simpl. apply Forall_app. split; [exact IH|].
          constructor; [|constructor]. simpl.
          match goal with E : is_quote _ = true |- _ =>
            destruct (quote_flag_cases _ E) as [[_ ->]|[[_ ->]|[_ ->]]] end; auto.
      + apply scan_cases in Hscan as [(l & E)|[(f & l & E)|(v & E)]].
        * discriminate.
        * inv E. exact IH.
        * inversion E; subst; exact IH. }
  split; [exact Hflags|].
  eapply Forall_impl; [|exact Hflags].
  intros [f] [E|[E|E]]; simpl in E; subst f; reflexivity.
Qed.

Lemma reachable_well_formed_witness :
  0 <= previous_indent_length (mkScanner 10 [mkDelimiter 2]) < 65536
  /\ Forall (fun d => flags d = 1 \/ flags d = 2 \/ flags d = 4)
            (delimiter_stack (mkScanner 10 [mkDelimiter 2]))
  /\ Forall (fun d => is_quote (end_character d) = true)
            (delimiter_stack (mkScanner 10 [mkDelimiter 2])).
Proof.
  apply (reachable_well_formed (mkScanner 10 [mkDelimiter 2])).
  apply (reachable_scan (mkScanner 10 []) (lexer_at [34])
           (requested [STRING_START]) true _ (mkLexer [] 1 0 1 STRING_START)).
  - apply (reachable_scan zero_state (lexer_at [10; 9; 32; 32; 120])
             (requested [INDENT]) true _ (mkLexer [120] 4 4 0 INDENT)).
    + apply reachable_zero.
    + reflexivity.
  - reflexivity.
Defined.

(** ** The literal openers and NEWLINE *)







(** ** A whole string literal *)

Lemma is_quote_token_char (q : Z) : is_quote q = true -> is_token_char q = true.
Proof.
  intros H. destruct (quote_flag_cases q H) as [[-> _]|[[-> _]|[-> _]]];
    reflexivity.
Qed.

Lemma back_push_back (s : Scanner) (d : Delimiter) : back (push_back s d) = d.
Proof. unfold back, push_back; simpl. apply last_last. Qed.

Lemma pop_back_push_back (s : Scanner) (d : Delimiter) : pop_back (push_back s d) = s.
Proof.
  unfold pop_back, push_back; simpl. rewrite removelast_last.
  destruct s; reflexivity.
Qed.

(** The string-content scanner at a run of content in front of the closing
    quote of the top delimiter. *)
Lemma scan_string_up_to_quote (s : Scanner) (lexer : TSLexer)
    (valid_symbols : ValidSymbols) (pre : list Z) (q : Z) (rest : list Z) :
  valid_symbols STRING_CONTENT = true ->
  valid_symbols INDENT = false ->
  delimiter_stack s <> [] ->
  end_character (back s) = q ->
  is_quote q = true ->
  input lexer = pre ++ q :: rest ->
  string_run q pre = true ->
  scan s lexer valid_symbols
  = Some (if is_empty pre
          then (true, pop_back s,
                mkLexer rest (S (position lexer)) (token_start lexer)
                        (S (position lexer)) STRING_END)
          else (true, s,
                mkLexer (q :: rest) (position lexer + length pre)
                        (token_start lexer) (position lexer + length pre)
                        STRING_CONTENT)).
Proof.
  intros Hv Hi Hs He Hq Hin Hrun.
  rewrite (string_scanner_applies s lexer valid_symbols Hv Hs Hi), He.
  replace (S (length (input lexer)))
    with (length pre + S (S (length rest)))%nat
    by (rewrite Hin, length_app; simpl; lia).
  rewrite (string_content_loop_run pre _ s q false lexer (q :: rest) Hin Hrun).
  cbn [orb]. rewrite string_content_loop_S.
  change (lookahead (advanced lexer (length pre) (q :: rest))) with q.
  rewrite Z.eqb_refl.
  destruct (quote_flag_cases q Hq) as [[-> _]|[[-> _]|[-> _]]];
    (destruct pre; cbn; unfold mark_end, set_result_symbol, advanced; simpl;
     rewrite ?Nat.add_0_r; reflexivity).
Qed.

(** X8: a whole string literal, scanned call by call, leaves the state as
    it was.  From any state, with the text a quote, a run of content and the
    same quote again: the opening call commits STRING_START and pushes the
    delimiter of the quote; with no content the next call commits STRING_END
    and gives the first state back; with content the next call commits
    STRING_CONTENT in front of the closing quote, the stack still holding the
    delimiter, and the call after it commits STRING_END and gives the first
    state back, with the text behind the literal left to read. *)
Theorem string_literal_restores_state (s : Scanner) (lexer : TSLexer)
    (valid_open valid_in : ValidSymbols) (q : Z) (pre rest : list Z) :
  is_quote q = true ->
  input lexer = q :: pre ++ q :: rest ->
  string_run q pre = true ->
  valid_open STRING_CONTENT = false ->
  valid_open REGEX_CONTENT = false ->
  valid_open STRING_START = true ->
  valid_in STRING_CONTENT = true ->
  valid_in INDENT = false ->
  let s1 := push_back s (mkDelimiter (quote_flag q)) in
  let lexer1 :=
    mkLexer (pre ++ q :: rest) (S (position lexer)) (token_start lexer)
            (S (position lexer)) STRING_START in
  let lexer2 :=
    mkLexer (q :: rest) (S (position lexer) + length pre) (token_start lexer)
            (S (position lexer) + length pre) STRING_CONTENT in
  let close_at (n : nat) :=
    mkLexer rest (S n) (token_start lexer) (S n) STRING_END in
  scan s lexer valid_open = Some (true, s1, lexer1)
  /\ (pre = [] ->
      scan s1 lexer1 valid_in = Some (true, s, close_at (S (position lexer))))
  /\ (pre <> [] ->
      scan s1 lexer1 valid_in = Some (true, s1, lexer2)
      /\ scan s1 lexer2 valid_in
         = Some (true, s, close_at (S (position lexer) + length pre)%nat)).
Proof.
  intros Hq Hin Hrun Ho1 Ho2 Ho3 Hi1 Hi2 s1 lexer1 lexer2 close_at.
  assert (Hs1 : delimiter_stack s1 <> [])
    by (unfold s1, push_back; simpl; intros E; apply app_eq_nil in E as [_ E];
        discriminate).
  assert (He1 : end_character (back s1) = q)
    by (unfold s1; rewrite back_push_back; apply end_character_quote_flag;
        exact Hq).
  assert (Hpop : pop_back s1 = s) by apply pop_back_push_back.
  split; [|split].
  - assert (Hc : content_scan s lexer valid_open = Some (FallThrough lexer)).
    { unfold content_scan. rewrite Ho1, Ho2. reflexivity. }
    assert (Hl : layout_loop (S (length (input lexer))) (mark_end lexer) layout_init
                 = Some (Measured (mark_end lexer) layout_init)).
    { rewrite layout_loop_S, layout_turn_token_char; [reflexivity|].
      rewrite lookahead_mark_end, (lookahead_cons lexer q _ Hin).
      apply is_quote_token_char. exact Hq. }
    rewrite (scan_measured _ _ _ _ _ _ Hc Hl), layout_decide_eq.
    rewrite lookahead_mark_end, (lookahead_cons lexer q _ Hin), Ho3, Hq.
    cbn [found_end_of_line layout_init first_comment_indent_length andb].
    change (-1 =? -1) with true. cbn [andb].
    unfold s1, lexer1, advance, lexer_advance, mark_end, set_result_symbol.
    simpl. rewrite Hin. reflexivity.
  - intros ->.
    rewrite (scan_string_up_to_quote s1 lexer1 valid_in [] q rest
               Hi1 Hi2 Hs1 He1 Hq eq_refl eq_refl).
    cbn [is_empty]. rewrite Hpop. reflexivity.
  - intros Hpre. split.
    + rewrite (scan_string_up_to_quote s1 lexer1 valid_in pre q rest
                 Hi1 Hi2 Hs1 He1 Hq eq_refl Hrun).
      destruct pre; [contradiction|reflexivity].
    + rewrite (scan_string_up_to_quote s1 lexer2 valid_in [] q rest
                 Hi1 Hi2 Hs1 He1 Hq eq_refl eq_refl).
      cbn [is_empty]. rewrite Hpop. reflexivity.
Qed.

Lemma string_literal_restores_state_witness :
  scan (mkScanner 4 []) (lexer_at [34; 97; 98; 34; 120]) (requested [STRING_START])
  = Some (true, mkScanner 4 [mkDelimiter 2],
          mkLexer [97; 98; 34; 120] 1 0 1 STRING_START)
  /\ scan (mkScanner 4 [mkDelimiter 2])
          (mkLexer [97; 98; 34; 120] 1 0 1 STRING_START)
          (requested [STRING_CONTENT; STRING_END])
     = Some (true, mkScanner 4 [mkDelimiter 2],
             mkLexer [34; 120] 3 0 3 STRING_CONTENT)
  /\ scan (mkScanner 4 [mkDelimiter 2])
          (mkLexer [34; 120] 3 0 3 STRING_CONTENT)
          (requested [STRING_CONTENT; STRING_END])
     = Some (true, mkScanner 4 [], mkLexer [120] 4 0 4 STRING_END).
Proof.
  destruct (string_literal_restores_state (mkScanner 4 [])
              (lexer_at [34; 97; 98; 34; 120])
              (requested [STRING_START]) (requested [STRING_CONTENT; STRING_END])
              34 [97; 98] [120]
              eq_refl eq_refl eq_refl eq_refl eq_refl eq_refl eq_refl eq_refl)
    as (H1 & _ & H2).
  split; [exact H1|]. apply H2. discriminate.
Defined.

(** ** More on serialization *)

Lemma memcpy_to_after (data : list Delimiter) :
  forall buffer i n j, (i + n <= j)%nat -> memcpy_to buffer i data n j = buffer j.
Proof.
  induction data as [|d data IH]; intros buffer i n j Hj.
  - destruct n; reflexivity.
  - destruct n as [|n]; [reflexivity|].
    simpl. rewrite IH by lia. unfold store_byte.
    destruct (Nat.eqb_spec j i); [lia|reflexivity].
Qed.

Lemma memcpy_from_memcpy_to_firstn (data : list Delimiter) :
  forall n buffer i,
    (n <= length data)%nat ->
    memcpy_from (memcpy_to buffer i data n) i n = firstn n data.
Proof.
  unfold memcpy_from.
  induction data as [|d data IH]; intros n buffer i Hn.
  - simpl in Hn. assert (n = 0%nat) as -> by lia. reflexivity.
  - destruct n as [|n]; [reflexivity|].
    simpl in Hn. simpl. f_equal.
    + rewrite memcpy_to_before by lia. unfold store_byte.
      rewrite Nat.eqb_refl. destruct d; reflexivity.
    + apply IH. lia.
Qed.

(** What [serialize] writes, whatever the depth of the stack. *)
Lemma serialize_eq (s : Scanner) (buffer : Buffer) :
  let n := Nat.min 255 (length (delimiter_stack s)) in
  serialize s buffer
  = (store (memcpy_to (store buffer 0 (Z.of_nat n)) 1 (delimiter_stack s) n)
           (S n) (previous_indent_length s),
     S (S n)).
Proof.
  intros n. unfold serialize, UINT8_MAX.
  assert (Hn : (if Nat.ltb 255 (length (delimiter_stack s)) then 255%nat
                else length (delimiter_stack s)) = n).
  { unfold n. destruct (Nat.ltb_spec 255 (length (delimiter_stack s))); lia. }
  rewrite Hn. clear Hn. destruct n as [|n']; [|reflexivity].
  destruct (delimiter_stack s); reflexivity.
Qed.

(** X9: [serialize] returns the number of delimiters written, at most 255,
    plus 2, so at least 2 and at most 257; it writes below that index only,
    and every byte of the buffer from that index on is as it was. *)
Theorem serialize_bounds (s : Scanner) (buffer : Buffer) :
  snd (serialize s buffer)
  = (Nat.min 255 (length (delimiter_stack s)) + 2)%nat
  /\ (2 <= snd (serialize s buffer) <= 257)%nat
  /\ (forall j, (snd (serialize s buffer) <= j)%nat ->
                fst (serialize s buffer) j = buffer j).
Proof.
  rewrite serialize_eq. cbn [fst snd].
  set (n := Nat.min 255 (length (delimiter_stack s))).
  assert (Hn : (n <= 255)%nat) by (unfold n; lia).
  split; [lia|]. split; [lia|].
  intros j Hj. unfold store at 1. unfold store_byte at 1.
  destruct (Nat.eqb_spec j (S n)); [lia|].
  rewrite memcpy_to_after by lia.
  unfold store, store_byte. destruct (Nat.eqb_spec j 0); [lia|reflexivity].
Qed.

(** X10: deserializing what [serialize] wrote gives, whatever the state
    deserialized into, the first 255 delimiters of the stack in their order
    (all of them when there are no more) and, as the baseline, the low byte
    of the baseline, sign-extended to 16 bits where [char] is signed. *)
Theorem deserialize_serialize (char_is_signed : bool) (s : Scanner)
    (buffer : Buffer) (s0 : Scanner) :
  fst (deserialize char_is_signed (fst (serialize s buffer))
                   (snd (serialize s buffer)) s0)
  = mkScanner (char_to_uint16 char_is_signed (to_uint8 (previous_indent_length s)))
              (firstn 255 (delimiter_stack s)).
Proof.
  rewrite serialize_eq. cbn [fst snd].
  set (n := Nat.min 255 (length (delimiter_stack s))).
  assert (Hn : (n <= 255)%nat) by (unfold n; lia).
  rewrite deserialize_state by discriminate.
  set (buf := store (memcpy_to (store buffer 0 (Z.of_nat n)) 1
                       (delimiter_stack s) n)
                    (S n) (previous_indent_length s)).
  assert (H0 : buf 0%nat = Z.of_nat n).
  { unfold buf. unfold store at 1. unfold store_byte at 1.
    cbn [Nat.eqb]. rewrite memcpy_to_before by lia.
    unfold store, store_byte. cbn [Nat.eqb].
    unfold to_uint8. apply Z.mod_small. lia. }
  rewrite H0.
  assert (Hcount : Z.to_nat (to_uint8 (Z.of_nat n)) = n).
  { unfold to_uint8. rewrite Z.mod_small by lia. apply Nat2Z.id. }
  rewrite Hcount.
  assert (Hlast : buf (S n) = to_uint8 (previous_indent_length s)).
  { unfold buf. unfold store at 1. unfold store_byte at 1.
    rewrite Nat.eqb_refl. reflexivity. }
  rewrite Hlast. f_equal.
  rewrite (memcpy_from_ext buf
             (memcpy_to (store buffer 0 (Z.of_nat n)) 1 (delimiter_stack s) n)).
  - rewrite memcpy_from_memcpy_to_firstn by (unfold n; lia).
    unfold n. destruct (Nat.le_ge_cases 255 (length (delimiter_stack s))) as [H|H].
    + rewrite Nat.min_l by exact H. reflexivity.
    + rewrite Nat.min_r by exact H.
      rewrite !firstn_all2 by lia. reflexivity.
  - intros j Hj. unfold buf. unfold store at 1. unfold store_byte at 1.
    destruct (Nat.eqb_spec j (S n)); [lia|reflexivity].
Qed.

(** ** Where the layout scanner leaves the lexer *)

Lemma lexer_advance_marks (lexer : TSLexer) (b : bool) :
  token_end (lexer_advance lexer b) = token_end lexer
  /\ (position lexer <= position (lexer_advance lexer b))%nat.
Proof.
  unfold lexer_advance. destruct (input lexer); simpl; split; auto; lia.
Qed.

Lemma comment_loop_marks (fuel : nat) :
  forall lexer lexer',
    comment_loop fuel lexer = Some lexer' ->
    token_end lexer' = token_end lexer
    /\ (position lexer <= position lexer')%nat.
Proof.
  induction fuel as [|fuel IH]; intros lexer lexer' H; [discriminate|].
  simpl in H. break_if.
  - apply IH in H as [H1 H2].
    destruct (lexer_advance_marks lexer true) as [E1 E2].
    unfold skip in *. split; [congruence|lia].
  - inv H. split; [reflexivity|lia].
Qed.

Lemma layout_turn_marks (lexer : TSLexer) (v : Layout) (t : Turn) :
  layout_turn lexer v = Some t ->
  let lexer' := match t with
                | Continue l _ | Break l _ | Fail l => l
                end in
  token_end lexer' = token_end lexer
  /\ (position lexer <= position lexer')%nat.
Proof.
  unfold layout_turn. intros H.
  pose proof (lexer_advance_marks lexer true) as [A1 A2].
  pose proof (lexer_advance_marks (skip lexer) true) as [B1 B2].
  pose proof (lexer_advance_marks (skip (skip lexer)) true) as [C1 C2].
  fold (skip lexer) in *. fold (skip (skip lexer)) in *.
  fold (skip (skip (skip lexer))) in *.
  repeat break_if; try discriminate;
    try (inv H; simpl; split; [congruence|lia]).
  all: destruct (comment_loop _ lexer) as [lexer1|] eqn:Ec; [|discriminate].
  all: inv H; simpl; apply comment_loop_marks in Ec as [E1 E2].
  all: destruct (lexer_advance_marks lexer1 true) as [D1 D2].
  all: unfold skip; split; [congruence|lia].
Qed.

Lemma layout_loop_marks (fuel : nat) :
  forall lexer v m,
    layout_loop fuel lexer v = Some m ->
    let lexer' := match m with
                  | Measured l _ | Invalid l => l
                  end in
    token_end lexer' = token_end lexer
    /\ (position lexer <= position lexer')%nat.
Proof.
  induction fuel as [|fuel IH]; intros lexer v m H; [discriminate|].
  rewrite layout_loop_S in H.
  destruct (layout_turn lexer v) as [t|] eqn:Et; [|discriminate].
  apply layout_turn_marks in Et. cbv zeta in Et.
  destruct t as [l v'|l v'|l].
  - apply IH in H. cbv zeta in *. destruct H as [H1 H2], Et as [E1 E2].
    split; [congruence|lia].
  - inv H. exact Et.
  - inv H. exact Et.
Qed.

(** X11: when a call commits INDENT, DEDENT or NEWLINE, the end of the token
    is the mark set where the layout scanning began: it lies in front of
    all the blanks and comments the call skipped, none of which belongs to
    the token. *)
Theorem indentation_token_is_empty (s : Scanner) (lexer : TSLexer)
    (valid_symbols : ValidSymbols) (lexer0 : TSLexer) (s' : Scanner)
    (lexer' : TSLexer) :
  content_scan s lexer valid_symbols = Some (FallThrough lexer0) ->
  scan s lexer valid_symbols = Some (true, s', lexer') ->
  result_symbol lexer' = INDENT \/ result_symbol lexer' = DEDENT
  \/ result_symbol lexer' = NEWLINE ->
  token_end lexer' = position lexer0
  /\ (position lexer0 <= position lexer')%nat.
Proof.
  intros Hc H Hsym. rewrite (scan_layout _ _ _ _ Hc) in H.
  unfold layout_scan in H.
  destruct (layout_loop _ _ _) as [[lexer1 v|lexer1]|] eqn:El; try discriminate.
  apply layout_loop_marks in El. cbv zeta in El. simpl in El.
  inv H. rewrite layout_decide_eq in *.
  repeat break_if;
    match goal with E : _ = (true, s', lexer') |- _ => inv E end;
    simpl in *; try exact El;
    destruct Hsym as [E|[E|E]]; discriminate.
Qed.

Lemma indentation_token_is_empty_witness :
  token_end (mkLexer [120] 6 6 0 DEDENT) = position (lexer_at [10; 32; 32; 35; 99; 10; 120])
  /\ Nat.le (position (lexer_at [10; 32; 32; 35; 99; 10; 120]))
            (position (mkLexer [120] 6 6 0 DEDENT)).
Proof.
  apply (indentation_token_is_empty (mkScanner 4 [])
           (lexer_at [10; 32; 32; 35; 99; 10; 120])
           (requested [DEDENT; NEWLINE])
           (lexer_at [10; 32; 32; 35; 99; 10; 120])
           (mkScanner 0 []) (mkLexer [120] 6 6 0 DEDENT)).
  - reflexivity.
  - reflexivity.
  - right; left; reflexivity.
Defined.

(** ** Blanks up to a token, and up to the end of the input *)

(** As [layout_loop_blank_run], for a run of any length: the counter is
    that of the code. *)
Lemma layout_loop_blanks_token (lexer : TSLexer) (blanks : list Z) (c : Z)
    (rest : list Z) :
  input lexer = blanks ++ c :: rest ->
  forallb is_blank blanks = true ->
  is_token_char c = true ->
  layout_loop (S (length (input lexer))) lexer layout_init
  = Some (Measured (skipped lexer (length blanks) (c :: rest))
            (mkLayout (existsb (fun c => c =? 10) blanks)
                      (fold_left blank_step blanks 0) (-1))).
Proof.
  intros Hin Hb Hc.
  rewrite <- (skipped_zero lexer) at 2. rewrite Hin.
  replace (S (length (blanks ++ c :: rest)))
    with (length blanks + S (S (length rest)))%nat
    by (rewrite length_app; simpl; lia).
  rewrite (layout_loop_blanks blanks _ lexer 0 (c :: rest) layout_init Hb).
  rewrite layout_loop_S, layout_turn_token_char
    by (rewrite lookahead_skipped; exact Hc).
  reflexivity.
Qed.

Lemma layout_loop_blanks_end (lexer : TSLexer) (blanks : list Z) :
  input lexer = blanks ->
  forallb is_blank blanks = true ->
  layout_loop (S (length (input lexer))) lexer layout_init
  = Some (Measured (skipped lexer (length blanks) []) (mkLayout true 0 (-1))).
Proof.
  intros Hin Hb.
  rewrite <- (skipped_zero lexer) at 2. rewrite Hin.
  replace (S (length blanks)) with (length blanks + 1)%nat by lia.
  rewrite <- (app_nil_r blanks) at 2.
  rewrite (layout_loop_blanks blanks _ lexer 0 [] layout_init Hb).
  rewrite layout_loop_S, layout_turn_end by apply lookahead_skipped.
  reflexivity.
Qed.

(** The decision at the end of the input. *)
Lemma layout_decide_end (s : Scanner) (valid_symbols : ValidSymbols)
    (lexer : TSLexer) :
  lookahead lexer = 0 ->
  layout_decide s valid_symbols lexer (mkLayout true 0 (-1))
  = if (valid_symbols DEDENT
        || (negb (valid_symbols NEWLINE)
            && negb (within_brackets valid_symbols)))
       && (0 <? previous_indent_length s)
    then (true, mkScanner 0 (delimiter_stack s), set_result_symbol lexer DEDENT)
    else if newline_due valid_symbols
    then (true, s, set_result_symbol lexer NEWLINE)
    else (false, s, lexer).
Proof.
  intros Hl. rewrite layout_decide_eq. rewrite Hl.
  unfold indent_due, dedent_due.
  cbn [found_end_of_line indent_length first_comment_indent_length andb].
  change (0 <? 0) with false. change (0 =? 0) with true.
  change (is_quote 0) with false. change (0 =? 47) with false.
  rewrite !andb_false_r, !andb_true_r.
  destruct (valid_symbols DEDENT
            || negb (valid_symbols NEWLINE) && negb (within_brackets valid_symbols));
    cbn [andb]; [|reflexivity].
  destruct (0 <? previous_indent_length s) eqn:Ep; cbn [andb]; [|reflexivity].
  assert ((-1 <? previous_indent_length s) = true) as -> by lia.
  reflexivity.
Qed.

(** X13: when the text left to read is blanks up to the end of the input,
    the layout loop measures the indentation 0 at an end of line, however
    the last line is indented.  The call then commits DEDENT when the
    baseline is positive and DEDENT is requested or neither NEWLINE nor a
    closing bracket is; otherwise NEWLINE when that is requested outside
    error recovery; otherwise it returns false.  INDENT and the openers are
    out of the question there. *)
Theorem layout_at_end_of_input (s : Scanner) (lexer : TSLexer)
    (valid_symbols : ValidSymbols) (lexer0 : TSLexer) (blanks : list Z) :
  content_scan s lexer valid_symbols = Some (FallThrough lexer0) ->
  input lexer0 = blanks ->
  forallb is_blank blanks = true ->
  let lexer1 := skipped (mark_end lexer0) (length blanks) [] in
  scan s lexer valid_symbols
  = Some (if (valid_symbols DEDENT
              || (negb (valid_symbols NEWLINE)
                  && negb (within_brackets valid_symbols)))
             && (0 <? previous_indent_length s)
          then (true, mkScanner 0 (delimiter_stack s),
                set_result_symbol lexer1 DEDENT)
          else if newline_due valid_symbols
          then (true, s, set_result_symbol lexer1 NEWLINE)
          else (false, s, lexer1)).
Proof.
  intros Hc Hin Hb lexer1.
  assert (Hl : layout_loop (S (length (input lexer0))) (mark_end lexer0) layout_init
               = Some (Measured lexer1 (mkLayout true 0 (-1)))).
  { change (input lexer0) with (input (mark_end lexer0)).
    apply layout_loop_blanks_end; assumption. }
  rewrite (scan_measured _ _ _ _ _ _ Hc Hl).
  rewrite layout_decide_end by apply lookahead_skipped.
  reflexivity.
Qed.

Lemma layout_at_end_of_input_witness :
  scan (mkScanner 8 []) (lexer_at [10; 32; 32; 32; 32; 32; 32; 32; 32; 10; 9])
       (requested [DEDENT; NEWLINE])
  = Some (true, mkScanner 0 [], mkLexer [] 11 11 0 DEDENT).
Proof.
  apply (layout_at_end_of_input (mkScanner 8 [])
           (lexer_at [10; 32; 32; 32; 32; 32; 32; 32; 32; 10; 9])
           (requested [DEDENT; NEWLINE])
           (lexer_at [10; 32; 32; 32; 32; 32; 32; 32; 32; 10; 9])
           [10; 32; 32; 32; 32; 32; 32; 32; 32; 10; 9]
           eq_refl eq_refl eq_refl).
Defined.

(** X14: string content that runs up to the end of the input is consumed
    but not committed as STRING_CONTENT, and the delimiter stays on the
    stack: the loop ends, and the call goes on into the layout scanner, which
    at the end of the input commits DEDENT or NEWLINE when they apply and
    returns false otherwise. *)
Theorem string_content_at_end_of_input (s : Scanner) (lexer : TSLexer)
    (valid_symbols : ValidSymbols) (pre : list Z) :
  valid_symbols STRING_CONTENT = true ->
  delimiter_stack s <> [] ->
  valid_symbols INDENT = false ->
  input lexer = pre ->
  string_run (end_character (back s)) pre = true ->
  let lexer1 := mark_end (advanced lexer (length pre) []) in
  scan s lexer valid_symbols
  = Some (if (valid_symbols DEDENT
              || (negb (valid_symbols NEWLINE)
                  && negb (within_brackets valid_symbols)))
             && (0 <? previous_indent_length s)
          then (true, mkScanner 0 (delimiter_stack s),
                set_result_symbol lexer1 DEDENT)
          else if valid_symbols NEWLINE
          then (true, s, set_result_symbol lexer1 NEWLINE)
          else (false, s, lexer1)).
Proof.
  intros Hv Hs Hi Hin Hrun lexer1.
  rewrite (string_scanner_applies s lexer valid_symbols Hv Hs Hi).
  replace (S (length (input lexer))) with (length pre + 1)%nat
    by (rewrite Hin; lia).
  rewrite <- (app_nil_r pre) in Hin.
  rewrite (string_content_loop_run pre _ s _ false lexer [] Hin Hrun).
  rewrite string_content_loop_S.
  change (lookahead (advanced lexer (length pre) [])) with 0.
  cbn [Z.eqb].
  assert (Hregex :
    (if valid_symbols REGEX_CONTENT
     then regex_content_loop
            (S (length (input (advanced lexer (length pre) [])))) s false
            (advanced lexer (length pre) [])
     else Some (FallThrough (advanced lexer (length pre) [])))
    = Some (FallThrough (advanced lexer (length pre) []))).
  { destruct (valid_symbols REGEX_CONTENT); reflexivity. }
  rewrite Hregex.
  rewrite (layout_scan_end_of_input s (advanced lexer (length pre) [])
             valid_symbols eq_refl Hi).
  reflexivity.
Qed.

Lemma string_content_at_end_of_input_witness :
  scan (mkScanner 0 [mkDelimiter 2]) (lexer_at [97; 98; 99])
       (requested [STRING_CONTENT; STRING_END])
  = Some (false, mkScanner 0 [mkDelimiter 2], mkLexer [] 3 0 3 NEWLINE).
Proof.
  refine (string_content_at_end_of_input (mkScanner 0 [mkDelimiter 2])
            (lexer_at [97; 98; 99]) (requested [STRING_CONTENT; STRING_END])
            [97; 98; 99] eq_refl _ eq_refl eq_refl eq_refl).
  discriminate.
Defined.

(** ** What a call can commit within a line and behind a comment *)

(** X16: when the layout loop meets a token character after blanks none of
    which is a newline, no indentation token is decided, whatever the
    baseline and the requested kinds: the call opens a string literal when
    STRING_START is requested and the character is a quote, else a regex
    literal when REGEX_START is requested and the character is a slash, and
    else returns false with the state as it was, having skipped the
    blanks. *)
Theorem tokens_within_a_line (s : Scanner) (lexer : TSLexer)
    (valid_symbols : ValidSymbols) (lexer0 : TSLexer) (blanks : list Z) (c : Z)
    (rest : list Z) :
  content_scan s lexer valid_symbols = Some (FallThrough lexer0) ->
  input lexer0 = blanks ++ c :: rest ->
  forallb is_blank blanks = true ->
  existsb (fun c => c =? 10) blanks = false ->
  is_token_char c = true ->
  let lexer1 := skipped (mark_end lexer0) (length blanks) (c :: rest) in
  scan s lexer valid_symbols
  = Some (if valid_symbols STRING_START && is_quote c
          then (true, push_back s (mkDelimiter (quote_flag c)),
                set_result_symbol (mark_end (advance lexer1)) STRING_START)
          else if valid_symbols REGEX_START && (c =? 47)
          then (true, s,
                set_result_symbol (mark_end (advance lexer1)) REGEX_START)
          else (false, s, lexer1)).
Proof.
  intros Hc Hin Hb Hnl Htok lexer1.
  assert (Hl : layout_loop (S (length (input lexer0))) (mark_end lexer0) layout_init
               = Some (Measured lexer1
                         (mkLayout false (fold_left blank_step blanks 0) (-1)))).
  { change (input lexer0) with (input (mark_end lexer0)).
    rewrite (layout_loop_blanks_token (mark_end lexer0) blanks c rest Hin Hb Htok).
    rewrite Hnl. reflexivity. }
  rewrite (scan_measured _ _ _ _ _ _ Hc Hl), layout_decide_eq.
  cbn [found_end_of_line first_comment_indent_length andb].
  change (-1 =? -1) with true. cbn [andb].
  change (lookahead lexer1) with c.
  reflexivity.
Qed.

Lemma tokens_within_a_line_witness :
  scan (mkScanner 4 []) (lexer_at [32; 9; 120; 10]) (requested [DEDENT; INDENT])
  = Some (false, mkScanner 4 [], mkLexer [120; 10] 2 2 0 NEWLINE).
Proof.
  apply (tokens_within_a_line (mkScanner 4 []) (lexer_at [32; 9; 120; 10])
           (requested [DEDENT; INDENT]) (lexer_at [32; 9; 120; 10])
           [32; 9] 120 [10] eq_refl eq_refl eq_refl eq_refl eq_refl).
Defined.



(** ** Only the top of the stack counts *)

Lemma last_app_nonempty (A : Type) (l1 l2 : list A) (d : A) :
  l2 <> [] -> last (l1 ++ l2) d = last l2 d.
Proof.
  intros H. induction l1 as [|a l1 IH]; [reflexivity|].
  simpl. destruct (l1 ++ l2) eqn:E; [|exact IH].
  apply app_eq_nil in E as [_ E]. contradiction.
Qed.

Lemma pop_back_on_top_of (below : list Delimiter) (s : Scanner) :
  delimiter_stack s <> [] ->
  pop_back (on_top_of below s) = on_top_of below (pop_back s).
Proof.
  intros H. unfold pop_back, on_top_of. simpl.
  rewrite removelast_app by exact H. reflexivity.
Qed.

Lemma push_back_on_top_of (below : list Delimiter) (s : Scanner) (d : Delimiter) :
  push_back (on_top_of below s) d = on_top_of below (push_back s d).
Proof. unfold push_back, on_top_of. simpl. rewrite app_assoc. reflexivity. Qed.

Lemma string_content_loop_on_top_of (below : list Delimiter) (fuel : nat) :
  forall s end_char has_content lexer,
    delimiter_stack s <> [] ->
    string_content_loop fuel (on_top_of below s) end_char has_content lexer
    = flow_on_top_of below (string_content_loop fuel s end_char has_content lexer).
Proof.
  induction fuel as [|fuel IH]; intros s end_char has_content lexer Hs;
    [reflexivity|].
  rewrite !string_content_loop_S.
  repeat break_if; try reflexivity.
  - simpl. rewrite pop_back_on_top_of by exact Hs. reflexivity.
  - apply IH. exact Hs.
Qed.

Lemma regex_content_loop_on_top_of (below : list Delimiter) (fuel : nat) :
  forall s has_content lexer,
    regex_content_loop fuel (on_top_of below s) has_content lexer
    = flow_on_top_of below (regex_content_loop fuel s has_content lexer).
Proof.
  induction fuel as [|fuel IH]; intros s has_content lexer; [reflexivity|].
  rewrite !regex_content_loop_S.
  repeat break_if; try reflexivity. apply IH.
Qed.

Lemma content_scan_on_top_of (below : list Delimiter) (s : Scanner)
    (lexer : TSLexer) (valid_symbols : ValidSymbols) :
  delimiter_stack s <> [] ->
  content_scan (on_top_of below s) lexer valid_symbols
  = flow_on_top_of below (content_scan s lexer valid_symbols).
Proof.
  intros Hs. unfold content_scan.
  assert (Hlen : Nat.eqb (length (delimiter_stack (on_top_of below s))) 0
                 = Nat.eqb (length (delimiter_stack s)) 0).
  { unfold on_top_of; simpl. rewrite length_app.
    destruct (delimiter_stack s); [contradiction|].
    simpl. rewrite Nat.add_succ_r. reflexivity. }
  assert (Hback : back (on_top_of below s) = back s)
    by (unfold back, on_top_of; simpl; apply last_app_nonempty; exact Hs).
  assert (Hregex : forall lexer1,
    (if valid_symbols REGEX_CONTENT && negb (error_recovery_mode valid_symbols)
     then regex_content_loop (S (length (input lexer1))) (on_top_of below s)
                             false lexer1
     else Some (FallThrough lexer1))
    = flow_on_top_of below
        (if valid_symbols REGEX_CONTENT && negb (error_recovery_mode valid_symbols)
         then regex_content_loop (S (length (input lexer1))) s false lexer1
         else Some (FallThrough lexer1))).
  { intros lexer1. break_if; [|reflexivity].
    apply regex_content_loop_on_top_of. }
  rewrite Hlen, Hback.
  break_if; [|apply Hregex].
  rewrite string_content_loop_on_top_of by exact Hs.
  destruct (string_content_loop _ s _ false lexer) as [[[[flag s1] lexer1]|lexer1]|];
    try reflexivity.
  simpl. apply Hregex.
Qed.

Lemma layout_decide_on_top_of (below : list Delimiter) (s : Scanner)
    (valid_symbols : ValidSymbols) (lexer : TSLexer) (v : Layout) :
  layout_decide (on_top_of below s) valid_symbols lexer v
  = (let '(flag, s', lexer') := layout_decide s valid_symbols lexer v in
     (flag, on_top_of below s', lexer')).
Proof.
  rewrite !layout_decide_eq.
  change (indent_due (on_top_of below s) valid_symbols v)
    with (indent_due s valid_symbols v).
  change (dedent_due (on_top_of below s) valid_symbols v)
    with (dedent_due s valid_symbols v).
  repeat break_if; try reflexivity.
  rewrite push_back_on_top_of. reflexivity.
Qed.

(** X15: [scan] looks at the top of the delimiter stack only.  With a
    non-empty stack, putting any delimiters under it changes nothing in what
    the call returns and in what it does to the lexer, and the state after
    the call has the same delimiters under it. *)
Theorem scan_reads_top_only (below : list Delimiter) (s : Scanner)
    (lexer : TSLexer) (valid_symbols : ValidSymbols) :
  delimiter_stack s <> [] ->
  scan (on_top_of below s) lexer valid_symbols
  = result_on_top_of below (scan s lexer valid_symbols).
Proof.
  intros Hs. unfold scan. rewrite content_scan_on_top_of by exact Hs.
  destruct (content_scan s lexer valid_symbols)
    as [[[[flag s1] lexer1]|lexer0]|]; try reflexivity.
  simpl. unfold layout_scan.
  destruct (layout_loop _ _ _) as [[lexer1 v|lexer1]|]; try reflexivity.
  rewrite layout_decide_on_top_of.
  destruct (layout_decide s valid_symbols lexer1 v) as [[flag s'] lexer'].
  reflexivity.
Qed.

Lemma scan_reads_top_only_witness :
  scan (mkScanner 0 [mkDelimiter 2; mkDelimiter 4; mkDelimiter 1])
       (lexer_at [39; 120]) (requested [STRING_CONTENT])
  = result_on_top_of [mkDelimiter 2; mkDelimiter 4]
      (scan (mkScanner 0 [mkDelimiter 1]) (lexer_at [39; 120])
            (requested [STRING_CONTENT])).
Proof.
  apply (scan_reads_top_only [mkDelimiter 2; mkDelimiter 4]
           (mkScanner 0 [mkDelimiter 1]) (lexer_at [39; 120])
           (requested [STRING_CONTENT])).
  discriminate.
Defined.

(** ** Delimiters *)

Lemma flags_set_end_character (d : Delimiter) (q : Z) :
  is_quote q = true ->
  flags (set_end_character d q) = Z.lor (flags d) (quote_flag q).
Proof.
  intros H. destruct (quote_flag_cases q H) as [[-> _]|[[-> _]|[-> _]]];
    reflexivity.
Qed.

(** X17: setting one of the three quotes as the end character of a
    delimiter that has none, as a fresh one, makes that quote its end
    character.  On any delimiter it leaves a quote as the end character, and
    the single quote wins over the double quote and both over the backquote
    when flags add up.  The end character of a delimiter is 0 or one of the
    three quotes, and 0 exactly when none of the three low bits of the flags
    is set. *)
Theorem delimiter_end_character :
  (forall d q, is_quote q = true -> end_character d = 0 ->
               end_character (set_end_character d q) = q)
  /\ (forall q, is_quote q = true ->
                end_character (set_end_character new_delimiter q) = q)
  /\ (forall d q, is_quote q = true ->
                  is_quote (end_character (set_end_character d q)) = true
                  /\ (end_character d = 39 ->
                      end_character (set_end_character d q) = 39))
  /\ (forall d, end_character d = 0 \/ is_quote (end_character d) = true)
  /\ (forall d, end_character d = 0
                <-> (Z.testbit (flags d) 0 = false
                     /\ Z.testbit (flags d) 1 = false
                     /\ Z.testbit (flags d) 2 = false)).
Proof.
  assert (Hset : forall d q, is_quote q = true -> end_character d = 0 ->
                             end_character (set_end_character d q) = q).
  { intros d q Hq Hd. rewrite end_character_bits in *.
    rewrite (flags_set_end_character d q Hq), !Z.lor_spec.
    destruct (Z.testbit (flags d) 0); [discriminate|].
    destruct (Z.testbit (flags d) 1); [discriminate|].
    destruct (Z.testbit (flags d) 2); [discriminate|].
    destruct (quote_flag_cases q Hq) as [[-> ->]|[[-> ->]|[-> ->]]];
      reflexivity. }
  split; [exact Hset|]. split; [|split; [|split]].
  - intros q Hq. apply Hset; [exact Hq|reflexivity].
  - intros d q Hq. rewrite !end_character_bits.
    rewrite (flags_set_end_character d q Hq), !Z.lor_spec.
    destruct (Z.testbit (flags d) 0), (Z.testbit (flags d) 1),
      (Z.testbit (flags d) 2);
      destruct (quote_flag_cases q Hq) as [[-> ->]|[[-> ->]|[-> ->]]];
      (split; [reflexivity|intros E; first [reflexivity|discriminate]]).
  - intros d. rewrite end_character_bits.
    destruct (Z.testbit (flags d) 0), (Z.testbit (flags d) 1),
      (Z.testbit (flags d) 2); auto.
  - intros d. rewrite end_character_bits.
    destruct (Z.testbit (flags d) 0), (Z.testbit (flags d) 1),
      (Z.testbit (flags d) 2); split;
      first [discriminate | intros (A & B & C); discriminate | auto].
Qed.

(** ** From the text of a line to its indentation token *)

Lemma margin_width_nonneg (margin : list Z) : 0 <= margin_width margin.
Proof.
  induction margin as [|c margin IH]; simpl; [lia|].
  destruct (c =? 9); lia.
Qed.

Lemma margin_width_pos (margin : list Z) : margin <> [] -> 0 < margin_width margin.
Proof.
  destruct margin as [|c margin]; [contradiction|]. intros _. simpl.
  pose proof (margin_width_nonneg margin). destruct (c =? 9); lia.
Qed.

Lemma fold_blank_step_margin (margin : list Z) :
  forall column,
    forallb is_margin_char margin = true ->
    0 <= column ->
    column + margin_width margin < 4294967296 ->
    fold_left blank_step margin column = column + margin_width margin.
Proof.
  induction margin as [|c margin IH]; intros column Hm H0 Hb; simpl in *; [lia|].
  apply andb_prop in Hm as [Hc Hm].
  pose proof (margin_width_nonneg margin) as Hw.
  unfold is_margin_char in Hc. unfold blank_step at 2. unfold to_uint32.
  destruct (c =? 32) eqn:E32.
  - apply Z.eqb_eq in E32. subst c. change (32 =? 9) with false in *.
    rewrite Z.mod_small by lia. rewrite IH by (auto; lia). lia.
  - simpl in Hc. rewrite Hc in *.
    rewrite Z.mod_small by lia. rewrite IH by (auto; lia). lia.
Qed.

Lemma is_margin_char_blank (margin : list Z) :
  forallb is_margin_char margin = true -> forallb is_blank margin = true.
Proof.
  induction margin as [|c margin IH]; [reflexivity|]. simpl.
  intros H. apply andb_prop in H as [Hc Hm]. rewrite (IH Hm), andb_true_r.
  unfold is_margin_char, is_blank in *.
  destruct (c =? 32), (c =? 9); try discriminate; simpl;
    rewrite ?orb_true_r; reflexivity.
Qed.

(** What the layout loop measures at the first token character of a line:
    the width of the margin of that line, whatever came before the
    newline. *)
Lemma layout_loop_line_start (lexer : TSLexer) (before margin : list Z) (c : Z)
    (rest : list Z) :
  input lexer = before ++ 10 :: margin ++ c :: rest ->
  forallb is_blank before = true ->
  forallb is_margin_char margin = true ->
  is_token_char c = true ->
  margin_width margin < 4294967296 ->
  layout_loop (S (length (input lexer))) lexer layout_init
  = Some (Measured (skipped lexer (length before + S (length margin)) (c :: rest))
            (mkLayout true (margin_width margin) (-1))).
Proof.
  intros Hin Hb Hm Hc Hw.
  assert (Hin' : input lexer = (before ++ 10 :: margin) ++ c :: rest)
    by (rewrite Hin, <- app_assoc; reflexivity).
  assert (Hblank : forallb is_blank (before ++ 10 :: margin) = true).
  { rewrite forallb_app, Hb. simpl. apply is_margin_char_blank. exact Hm. }
  rewrite (layout_loop_blanks_token lexer _ c rest Hin' Hblank Hc).
  rewrite length_app. simpl length.
  rewrite existsb_app. simpl existsb. rewrite orb_true_r.
  rewrite fold_left_app. simpl fold_left.
  change (blank_step (fold_left blank_step before 0) 10) with 0.
  rewrite fold_blank_step_margin by (auto; lia).
  reflexivity.
Qed.

(** X18: the baseline that INDENT records is the width of the margin of the
    line the next token stands on, 1 for each space and 8 for each tab
    after the last newline, whatever blank lines came before.  With the
    baseline 0, INDENT requested and a non-empty margin narrower than 65536
    columns in front of a token character, the call commits INDENT and sets
    the baseline to that width. *)
Theorem indent_records_margin (s : Scanner) (lexer : TSLexer)
    (valid_symbols : ValidSymbols) (lexer0 : TSLexer) (before margin : list Z)
    (c : Z) (rest : list Z) :
  content_scan s lexer valid_symbols = Some (FallThrough lexer0) ->
  input lexer0 = before ++ 10 :: margin ++ c :: rest ->
  forallb is_blank before = true ->
  forallb is_margin_char margin = true ->
  is_token_char c = true ->
  margin <> [] ->
  margin_width margin < 65536 ->
  valid_symbols INDENT = true ->
  previous_indent_length s = 0 ->
  scan s lexer valid_symbols
  = Some (true, mkScanner (margin_width margin) (delimiter_stack s),
          set_result_symbol
            (skipped (mark_end lexer0) (length before + S (length margin))
                     (c :: rest))
            INDENT).
Proof.
  intros Hc Hin Hb Hm Htok Hne Hw Hv Hp.
  assert (Hl : layout_loop (S (length (input lexer0))) (mark_end lexer0) layout_init
               = Some (Measured
                         (skipped (mark_end lexer0)
                                  (length before + S (length margin)) (c :: rest))
                         (mkLayout true (margin_width margin) (-1)))).
  { change (input lexer0) with (input (mark_end lexer0)).
    apply layout_loop_line_start; auto. lia. }
  rewrite (scan_measured _ _ _ _ _ _ Hc Hl).
  rewrite layout_decide_indent; auto.
  - cbn [indent_length]. rewrite Z.mod_small; [reflexivity|].
    pose proof (margin_width_nonneg margin). lia.
  - cbn [indent_length]. apply margin_width_pos. exact Hne.
Qed.

Lemma indent_records_margin_witness :
  scan zero_state (lexer_at [32; 10; 10; 9; 32; 32; 120]) (requested [INDENT])
  = Some (true, mkScanner 10 [], mkLexer [120] 6 6 0 INDENT).
Proof.
  refine (indent_records_margin zero_state (lexer_at [32; 10; 10; 9; 32; 32; 120])
            (requested [INDENT]) (lexer_at [32; 10; 10; 9; 32; 32; 120])
            [32; 10] [9; 32; 32] 120 []
            eq_refl eq_refl eq_refl eq_refl eq_refl _ _ eq_refl eq_refl).
  - discriminate.
  - reflexivity.
Defined.

(** X19: a token character in the first column of a line closes the block:
    with a positive baseline, and DEDENT requested or neither NEWLINE nor a
    closing bracket requested, the call commits DEDENT and sets the baseline
    to 0, whatever blank lines came before.  With the baseline 0 it commits
    NEWLINE when that is due. *)
Theorem first_column_closes_block (s : Scanner) (lexer : TSLexer)
    (valid_symbols : ValidSymbols) (lexer0 : TSLexer) (before : list Z)
    (c : Z) (rest : list Z) :
  content_scan s lexer valid_symbols = Some (FallThrough lexer0) ->
  input lexer0 = before ++ 10 :: c :: rest ->
  forallb is_blank before = true ->
  is_token_char c = true ->
  let lexer1 := skipped (mark_end lexer0) (length before + 1) (c :: rest) in
  (0 < previous_indent_length s ->
   valid_symbols DEDENT = true
   \/ (valid_symbols NEWLINE = false /\ within_brackets valid_symbols = false) ->
   scan s lexer valid_symbols
   = Some (true, mkScanner 0 (delimiter_stack s),
           set_result_symbol lexer1 DEDENT))
  /\ (previous_indent_length s = 0 ->
      newline_due valid_symbols = true ->
      scan s lexer valid_symbols
      = Some (true, s, set_result_symbol lexer1 NEWLINE)).
Proof.
  intros Hc Hin Hb Htok lexer1.
  assert (Hl : layout_loop (S (length (input lexer0))) (mark_end lexer0) layout_init
               = Some (Measured lexer1 (mkLayout true 0 (-1)))).
  { change (input lexer0) with (input (mark_end lexer0)).
    rewrite (layout_loop_line_start (mark_end lexer0) before [] c rest Hin Hb
               eq_refl Htok) by (simpl; lia).
    reflexivity. }
  rewrite (scan_measured _ _ _ _ _ _ Hc Hl), layout_decide_eq.
  unfold indent_due, dedent_due.
  cbn [found_end_of_line indent_length first_comment_indent_length andb].
  change (0 <? 0) with false. change (0 =? 0) with true.
  rewrite !andb_false_r, !andb_true_r.
  split.
  - intros Hp Hv.
    assert ((valid_symbols DEDENT
             || negb (valid_symbols NEWLINE)
                && negb (within_brackets valid_symbols)) = true) as ->.
    { destruct Hv as [-> | [-> ->]]; [reflexivity|apply orb_true_r]. }
    assert ((0 <? previous_indent_length s) = true) as -> by lia.
    assert ((-1 <? previous_indent_length s) = true) as -> by lia.
    reflexivity.
  - intros Hp Hn. rewrite Hp, Hn.
    change (0 <? 0) with false. rewrite !andb_false_r. reflexivity.
Qed.

Lemma first_column_closes_block_witness :
  scan (mkScanner 4 []) (lexer_at [32; 10; 10; 120]) (requested [DEDENT; NEWLINE])
  = Some (true, mkScanner 0 [], mkLexer [120] 3 3 0 DEDENT).
Proof.
  refine (proj1 (first_column_closes_block (mkScanner 4 [])
                   (lexer_at [32; 10; 10; 120]) (requested [DEDENT; NEWLINE])
                   (lexer_at [32; 10; 10; 120]) [32; 10] 120 []
                   eq_refl eq_refl eq_refl eq_refl) _ _).
  - reflexivity.
  - left; reflexivity.
Defined.

(** ** A comment that runs up to the end of the input *)



